(** * Tenor API wrapper: a shallow embedding of the client and its helpers

    The development follows the TypeScript sources:
    - [utils/parameters]: [renameParameters] and [createUrlParameters];
    - [utils/fetch]: [fetchTenorApi] and [fetchTenorApiEndpoint];
    - [tenor.ts]: the [TenorApi] class with its nine public methods.

    JavaScript objects live in a store (they are shared by reference and can be
    frozen), the network is an oracle consulted by [fetch], and every function
    of the sources is a computation in a small state-and-exception monad. *)

From Stdlib Require Import ZArith QArith String Ascii List Lia Permutation.
From stdpp Require Import base list.
Import ListNotations.

Open Scope string_scope.
Open Scope Z_scope.

(** ** JavaScript values and objects *)

Module JS.

(** A JavaScript number, which is a double.  The sources do two things with
    a number: they test it ([if (value)], false for [+0], [-0] and [NaN]) and
    they call [toString()] on it.  Both are the platform's, and a number is
    known here by what the two give: every double has its value in this type,
    fractions, [NaN] and the infinities included, printed as the platform
    prints it ([8] as [8], ten to the twenty-first as [1e+21]). *)
Record number : Type := { isZeroOrNaN : bool; Number_toString : string }.

(** The values an endpoint parameter can hold (see [EndpointParameters] in
    [tenor.types]): strings, numbers, booleans, arrays of strings, or
    [undefined].  A string is a well-formed one (no lone surrogate) and stands
    for the bytes of its UTF-8 encoding. *)
Inductive Value : Type :=
| VUndefined
| VString (s : string)
| VNumber (n : number)
| VBoolean (b : bool)
| VArray (elements : list string).

(** Own enumerable string-keyed properties, in [Object.entries] order.  For
    the property names of this program (the fields of [EndpointParameters] and
    the names they are sent under, none of which is an array index) that is
    insertion order. *)
Definition Props : Type := list (string * Value).

Definition keys (ps : Props) : list string := map fst ps.

(** [ToBoolean]: what [if (value)] tests. Arrays are objects, hence truthy. *)
Definition ToBoolean (v : Value) : bool :=
  match v with
  | VUndefined => false
  | VString s => negb (String.eqb s "")
  | VNumber n => negb (isZeroOrNaN n)
  | VBoolean b => b
  | VArray _ => true
  end.

Definition Array_isArray (v : Value) : bool :=
  match v with VArray _ => true | _ => false end.

(** [Array.prototype.join]. *)
Definition Array_join (separator : string) (elements : list string) : string :=
  String.concat separator elements.

(** [value.toString()].  [undefined] has no such method; the sources only
    call it on truthy values, and the entry for [VUndefined] is never used. *)
Definition toString (v : Value) : string :=
  match v with
  | VUndefined => "undefined"
  | VString s => s
  | VNumber n => Number_toString n
  | VBoolean b => if b then "true" else "false"
  | VArray elements => Array_join "," elements
  end.

(** Property read [o[k]]: [None] is [undefined] for a missing property. *)
Fixpoint get (k : string) (ps : Props) : option Value :=
  match ps with
  | [] => None
  | (k', v) :: rest => if String.eqb k' k then Some v else get k rest
  end.

(** Property write [o[k] = v]: an existing property keeps its place, a new
    one goes last.  Two kinds of names are written otherwise by JavaScript
    and are not modelled: an array index (listed before the other names,
    wherever it was written) and [__proto__] (the write sets the prototype
    and adds no property).  No field of [EndpointParameters] and no name of
    the rename table is one of them. *)
Fixpoint set (k : string) (v : Value) (ps : Props) : Props :=
  match ps with
  | [] => [(k, v)]
  | (k', v') :: rest =>
      if String.eqb k' k then (k, v) :: rest else (k', v') :: set k v rest
  end.

(** [Object.assign(target, source)] and the spread [{...target, ...source}]
    on the properties themselves: every entry of the source is written to the
    target in turn. *)
Definition assign (target source : Props) : Props :=
  fold_left (fun t '(k, v) => set k v t) source target.

(** A decoded JSON document, as [response.json()] yields it. *)
#[warnings="-register-all"]
Inductive Json : Type :=
| JNull
| JBoolean (b : bool)
| JNumber (q : Q)
| JString (s : string)
| JArray (items : list Json)
| JObject (members : list (string * Json)).

Fixpoint member (k : string) (members : list (string * Json)) : option Json :=
  match members with
  | [] => None
  | (k', j) :: rest => if String.eqb k' k then Some j else member k rest
  end.

End JS.

Import JS.

(** ** The platform's [URLSearchParams]

    The serializer and the parser of [application/x-www-form-urlencoded], as
    the URL standard defines them, over byte strings. *)

Module URLSearchParams.

Definition t : Type := list (string * string).

Definition append (params : t) (name value : string) : t :=
  (params ++ [(name, value)])%list.

(** [get]: the value of the first pair with that name. *)
Fixpoint get (params : t) (name : string) : option string :=
  match params with
  | [] => None
  | (n, v) :: rest => if String.eqb n name then Some v else get rest name
  end.

Definition has (params : t) (name : string) : bool :=
  existsb (fun p => String.eqb (fst p) name) params.

Definition hexDigit (n : N) : ascii :=
  ascii_of_N (if (n <? 10)%N then 48 + n else 55 + n).

Definition percentEncode (b : ascii) : string :=
  String "%" (String (hexDigit (N_of_ascii b / 16))
                     (String (hexDigit (N_of_ascii b mod 16)) "")).

(** Bytes the urlencoded serializer leaves alone: ASCII alphanumerics and
    [*], [-], [.], [_]. *)
Definition isPlain (b : ascii) : bool :=
  let n := N_of_ascii b in
  ((48 <=? n) && (n <=? 57) || (65 <=? n) && (n <=? 90) ||
   (97 <=? n) && (n <=? 122) ||
   (n =? 42) || (n =? 45) || (n =? 46) || (n =? 95))%N.

Definition encodeByte (b : ascii) : string :=
  if Ascii.eqb b " " then "+"
  else if isPlain b then String b ""
  else percentEncode b.

Fixpoint encode (s : string) : string :=
  match s with
  | EmptyString => ""
  | String b rest => encodeByte b ++ encode rest
  end.

Definition encodePair (p : string * string) : string :=
  encode (fst p) ++ "=" ++ encode (snd p).

(** [URLSearchParams.prototype.toString]. *)
Definition toString (params : t) : string :=
  String.concat "&" (map encodePair params).

Definition hexValue (c : ascii) : option N :=
  let n := N_of_ascii c in
  if ((48 <=? n) && (n <=? 57))%N then Some (n - 48)%N
  else if ((65 <=? n) && (n <=? 70))%N then Some (n - 55)%N
  else if ((97 <=? n) && (n <=? 102))%N then Some (n - 87)%N
  else None.

(** Percent-decoding: [%] followed by two hex digits is one byte, any other
    byte stands for itself. *)
Fixpoint percentDecode (s : string) : string :=
  match s with
  | EmptyString => ""
  | String c rest =>
      match rest with
      | String h (String l rest') =>
          match Ascii.eqb c "%", hexValue h, hexValue l with
          | true, Some hi, Some lo =>
              String (ascii_of_N (16 * hi + lo)) (percentDecode rest')
          | _, _, _ => String c (percentDecode rest)
          end
      | _ => String c (percentDecode rest)
      end
  end.

Fixpoint plusToSpace (s : string) : string :=
  match s with
  | EmptyString => ""
  | String c rest => String (if Ascii.eqb c "+" then " "%char else c) (plusToSpace rest)
  end.

Definition decode (s : string) : string := percentDecode (plusToSpace s).

(** Strict split on one byte: [n] separators give [n + 1] pieces. *)
Fixpoint split (separator : ascii) (s : string) : list string :=
  match s with
  | EmptyString => [""]
  | String c rest =>
      if Ascii.eqb c separator then "" :: split separator rest
      else match split separator rest with
           | [] => [String c ""]
           | piece :: pieces => String c piece :: pieces
           end
  end.

(** Name and value of one piece: cut at the first [=]; without one the
    whole piece is the name. *)
Fixpoint cut (s : string) : string * string :=
  match s with
  | EmptyString => ("", "")
  | String c rest =>
      if Ascii.eqb c "=" then ("", rest)
      else let (name, value) := cut rest in (String c name, value)
  end.

Definition parsePiece (piece : string) : string * string :=
  let (name, value) := cut piece in (decode name, decode value).

(** The urlencoded parser, [new URLSearchParams(string)]: empty pieces are
    skipped. *)
Definition parse (s : string) : t :=
  map parsePiece
    (List.filter (fun piece => negb (String.eqb piece "")) (split "&" s)).

End URLSearchParams.

(** ** The store, the trace and the monad *)

Definition ref : Type := nat.

(** An object of the store: its properties, and whether [Object.freeze] was
    applied to it. *)
Record Obj : Type := { props : Props; frozen : bool }.

(** A [TenorApi] instance: the private [#key] and the public [options]
    field, which holds a reference to the caller's object (or [undefined]). *)
Record TenorApi : Type := { key : string; options : option ref }.

(** The resource names [fetchTenorApiEndpoint] accepts. *)
Inductive ResourceName : Type :=
| search | featured | categories | search_suggestions
| autocomplete | trending_terms | registershare | posts.

Definition ResourceName_toString (resourceName : ResourceName) : string :=
  match resourceName with
  | search => "search"
  | featured => "featured"
  | categories => "categories"
  | search_suggestions => "search_suggestions"
  | autocomplete => "autocomplete"
  | trending_terms => "trending_terms"
  | registershare => "registershare"
  | posts => "posts"
  end.

(** What a run leaves behind: each entry into [fetchTenorApiEndpoint], with
    the fields of the parameter object it was handed, and each GET request
    issued, with its URL. *)
Inductive Event : Type :=
| Invoked (resourceName : ResourceName) (parameters : Props)
| Get (url : string).

(** Exceptions.  [InvalidReference] is not a JavaScript exception: it marks a
    reference into the store that was never allocated. *)
Inductive Exn : Type :=
| GoogleApiError (error : option Json)
| TypeError
| SyntaxError
| NetworkError (cause : string)
| InvalidReference.

(** Modelled from the spec: the class [GoogleApiError] of
    [errors/google-api-error], which is not among the sources.  The spec calls
    it a typed remote API error carrying the code and message of the error
    envelope; the exception above keeps the object its constructor receives
    and these two functions read the code and the message off it. *)
Definition GoogleApiError_code (error : option Json) : option Json :=
  match error with
  | Some (JObject members) => member "code" members
  | _ => None
  end.

Definition GoogleApiError_message (error : option Json) : option Json :=
  match error with
  | Some (JObject members) => member "message" members
  | _ => None
  end.

Inductive Result (A : Type) : Type :=
| Ok (a : A)
| Throw (e : Exn).
Arguments Ok {A} a.
Arguments Throw {A} e.

(** A [fetch] response: the status code and what [response.json()] gives
    (the decoded body, or the exception it throws). *)
Record Response : Type := { status : Z; json : Result Json }.

(** [response.ok]: the status is in the range 200-299. *)
Definition Response_ok (response : Response) : bool :=
  (200 <=? status response) && (status response <=? 299).

Record World : Type := {
  heap : list Obj;
  instances : list TenorApi;
  trace : list Event
}.

Definition with_heap (h : list Obj) (w : World) : World :=
  {| heap := h; instances := instances w; trace := trace w |}.

Definition with_instances (i : list TenorApi) (w : World) : World :=
  {| heap := heap w; instances := i; trace := trace w |}.

Definition with_trace (t : list Event) (w : World) : World :=
  {| heap := heap w; instances := instances w; trace := t |}.

Definition M (A : Type) : Type := World -> World * Result A.

Definition ret {A} (a : A) : M A := fun w => (w, Ok a).

Definition throw {A} (e : Exn) : M A := fun w => (w, Throw e).

Definition bind {A B} (m : M A) (f : A -> M B) : M B :=
  fun w =>
    match m w with
    | (w', Ok a) => f a w'
    | (w', Throw e) => (w', Throw e)
    end.

Declare Scope js_scope.
Delimit Scope js_scope with js.
Notation "x <- m ;; k" := (bind m (fun x => k))
  (at level 100, m at next level, k at level 200, right associativity) : js_scope.
Notation "m ;;; k" := (bind m (fun _ => k))
  (at level 100, k at level 200, right associativity) : js_scope.
Open Scope js_scope.

Fixpoint for_each {A} (items : list A) (body : A -> M unit) : M unit :=
  match items with
  | [] => ret tt
  | item :: rest => body item ;;; for_each rest body
  end.

(** Evaluation of an object literal: a new, unfrozen object. *)
Definition object (fields : Props) : M ref :=
  fun w =>
    (with_heap (heap w ++ [{| props := fields; frozen := false |}])%list w,
     Ok (length (heap w))).

Definition deref (r : ref) : M Obj :=
  fun w =>
    match heap w !! r with
    | Some o => (w, Ok o)
    | None => (w, Throw InvalidReference)
    end.

Definition Object_entries (r : ref) : M Props :=
  o <- deref r ;; ret (props o).

(** What [...source] contributes to an object literal: nothing for
    [undefined]. *)
Definition spread (source : option ref) : M Props :=
  match source with
  | Some r => Object_entries r
  | None => ret []
  end.

(** [Object.assign(target, source)] on a stored target; writing to a frozen
    object throws.  Each entry of the source is written as [JS.set] writes
    it, so the same two kinds of names are not modelled. *)
Definition Object_assign (target : ref) (source : Props) : M unit :=
  o <- deref target ;;
  match source with
  | [] => ret tt
  | _ =>
      if frozen o then throw TypeError
      else fun w =>
        (with_heap (<[target := {| props := assign (props o) source;
                                   frozen := false |}]> (heap w)) w, Ok tt)
  end.

(** [Object.freeze(r)]: returns its argument. *)
Definition Object_freeze (r : ref) : M ref :=
  o <- deref r ;;
  fun w =>
    (with_heap (<[r := {| props := props o; frozen := true |}]> (heap w)) w,
     Ok r).

(** A step that leaves the world alone. *)
Definition lift {A} (outcome : Result A) : M A := fun w => (w, outcome).

(** Property read on a decoded JSON value: a missing property is
    [undefined], reading from [null] throws. *)
Definition readProperty (j : Json) (k : string) : Result (option Json) :=
  match j with
  | JNull => Throw TypeError
  | JObject members => Ok (member k members)
  | _ => Ok None
  end.

Definition property (j : Json) (k : string) : M (option Json) :=
  lift (readProperty j k).

Definition record (e : Event) : M unit :=
  fun w => (with_trace (trace w ++ [e])%list w, Ok tt).

(** ** [utils/parameters] *)

Definition newParameterNames : list (string * string) :=
  [ ("aspectRatioRange", "ar_range");
    ("clientKey", "client_key");
    ("contentFilter", "contentfilter");
    ("contentFormats", "media_filter");
    ("positionId", "pos");
    ("isRandomOrder", "random");
    ("searchFilter", "searchfilter");
    ("searchTerm", "q") ].

Fixpoint lookupName (table : list (string * string)) (name : string) : option string :=
  match table with
  | [] => None
  | (n, n') :: rest => if String.eqb n name then Some n' else lookupName rest name
  end.

(** The name a parameter is sent under: its entry in [newParameterNames] if
    it has one, itself otherwise. *)
Definition newNameOf (currentName : string) : string :=
  match lookupName newParameterNames currentName with
  | Some newName => newName
  | None => currentName
  end.

Definition renameParameters (parameters : ref) : M ref :=
  renamedParameters <- object [] ;;
  entries <- Object_entries parameters ;;
  for_each entries (fun '(currentName, value) =>
    let newName := newNameOf currentName in
    Object_assign renamedParameters [(newName, value)]) ;;;
  Object_freeze renamedParameters.

Definition Array_length (v : Value) : nat :=
  match v with VArray elements => length elements | _ => 0%nat end.

(** One turn of the loop of [createUrlParameters]. *)
Definition appendParameter (urlParameters : URLSearchParams.t)
    (entry : string * Value) : URLSearchParams.t :=
  let (name, value) := entry in
  if ToBoolean value then
    if Array_isArray value && (Array_length value =? 0)%nat then urlParameters
    else URLSearchParams.append urlParameters name (toString value)
  else urlParameters.

Definition createUrlParameters (parameters : ref) : M URLSearchParams.t :=
  entries <- Object_entries parameters ;;
  ret (fold_left appendParameter entries []).

(** ** [utils/fetch] *)

(** Scheme and authority of a serialized URL: what comes before the first
    slash of its path. *)
Fixpoint upToSlash (s : string) : string :=
  match s with
  | EmptyString => ""
  | String c rest => if Ascii.eqb c "/" then "" else String c (upToSlash rest)
  end.

Fixpoint originOf (url : string) : string :=
  match url with
  | EmptyString => ""
  | String c rest =>
      match Ascii.eqb c ":", rest with
      | true, String "/" (String "/" hostAndPath) => "://" ++ upToSlash hostAndPath
      | _, _ => String c (originOf rest)
      end
  end.

Definition startsWithSlash (s : string) : bool :=
  match s with
  | String c _ => Ascii.eqb c "/"
  | EmptyString => false
  end.

(** [new URL(path, base).href], for a base that ends in a slash and a
    reference [path] the URL parser resolves without rewriting it: a path of
    unreserved characters and slashes (absolute or relative, not beginning
    with two slashes) followed by a query of characters the parser leaves as
    they are; see [plainReference] below.  A reference with a leading slash
    replaces the path of the base, any other is put after it.  The rest of
    the URL parser (schemes and authorities in the reference, dot segments,
    re-encoding, the [TypeError] for a reference it cannot parse) is not
    modelled, and the statements about request URLs that depend on a
    caller's reference are stated for plain references. *)
Definition URL (path base : string) : string :=
  if startsWithSlash path then originOf base ++ path else base ++ path.

Definition baseUrl : string := "https://tenor.googleapis.com/v2/".

(** The URLs requested so far, oldest first. *)
Definition requested (events : list Event) : list string :=
  flat_map (fun e => match e with Get url => [url] | Invoked _ _ => [] end) events.

Section Client.

(** The transport: what [fetch] answers to a URL, given the URLs requested
    before; it either resolves to a response or rejects with an exception. *)
Variable network : list string -> string -> Result Response.

Definition fetch (url : string) : M Response :=
  fun w =>
    (with_trace (trace w ++ [Get url])%list w, network (requested (trace w)) url).

Definition Response_json (response : Response) : M Json :=
  lift (json response).

Definition fetchTenorApi (path : string) : M Json :=
  response <- fetch (URL path baseUrl) ;;
  jsonResponse <- Response_json response ;;
  if negb (Response_ok response) then
    error <- property jsonResponse "error" ;;
    throw (GoogleApiError error)
  else ret jsonResponse.

(** The first two steps are not in the source: they note the call, with the
    fields of the object it was handed, in the trace. *)
Definition fetchTenorApiEndpoint (resourceName : ResourceName)
    (parameters : ref) : M Json :=
  handed <- Object_entries parameters ;;
  record (Invoked resourceName handed) ;;;
  renamed <- renameParameters parameters ;;
  urlParameters <- createUrlParameters renamed ;;
  fetchTenorApi (ResourceName_toString resourceName ++ "?" ++
                 URLSearchParams.toString urlParameters).

(** ** [tenor.ts]: the class [TenorApi] *)

(** A [GifCategory], as the categories endpoint returns it. *)
Record GifCategory : Type := {
  searchterm : string;
  path : string;
  image : string;
  name : string
}.

Definition this_ (this : ref) : M TenorApi :=
  fun w =>
    match instances w !! this with
    | Some self => (w, Ok self)
    | None => (w, Throw InvalidReference)
    end.

Definition constructor (key : string) (options : option ref) : M ref :=
  fun w =>
    (with_instances (instances w ++ [{| key := key; options := options |}])%list w,
     Ok (length (instances w))).

Definition combineParameters (this : ref) (parameters : option ref) : M ref :=
  self <- this_ this ;;
  fromOptions <- spread (options self) ;;
  fromParameters <- spread parameters ;;
  combined <- object (assign (assign [("key", VString (key self))] fromOptions)
                             fromParameters) ;;
  Object_freeze combined.

Definition getSearchTermSuggestions (this : ref) (searchTerm : string)
    (parameters : option ref) : M Json :=
  rest <- spread parameters ;;
  literal <- object (assign [("searchTerm", VString searchTerm)] rest) ;;
  combined <- combineParameters this (Some literal) ;;
  fetchTenorApiEndpoint search_suggestions combined.

Definition getSearchTermAutocompletes (this : ref) (searchTerm : string)
    (parameters : option ref) : M Json :=
  rest <- spread parameters ;;
  literal <- object (assign [("searchTerm", VString searchTerm)] rest) ;;
  combined <- combineParameters this (Some literal) ;;
  fetchTenorApiEndpoint autocomplete combined.

Definition getTrendingSearchTerms (this : ref) (parameters : option ref) : M Json :=
  combined <- combineParameters this parameters ;;
  fetchTenorApiEndpoint trending_terms combined.

Definition getGifsBySearch (this : ref) (searchTerm : string)
    (parameters : option ref) : M Json :=
  rest <- spread parameters ;;
  literal <- object (assign [("searchTerm", VString searchTerm)] rest) ;;
  combined <- combineParameters this (Some literal) ;;
  fetchTenorApiEndpoint search combined.

Definition getGifsByCategory (this : ref) (category : GifCategory)
    (parameters : option ref) : M Json :=
  combined <- combineParameters this parameters ;;
  renamed <- renameParameters combined ;;
  urlParameters <- createUrlParameters renamed ;;
  fetchTenorApi (path category ++ "&" ++ URLSearchParams.toString urlParameters).

Definition getGifsById (this : ref) (ids : list string)
    (parameters : option ref) : M Json :=
  rest <- spread parameters ;;
  literal <- object (assign [("ids", VArray ids)] rest) ;;
  combined <- combineParameters this (Some literal) ;;
  fetchTenorApiEndpoint posts combined.

Definition getFeaturedGifs (this : ref) (parameters : option ref) : M Json :=
  combined <- combineParameters this parameters ;;
  fetchTenorApiEndpoint featured combined.

Definition getGifCategories (this : ref) (parameters : option ref) : M Json :=
  combined <- combineParameters this parameters ;;
  fetchTenorApiEndpoint categories combined.

Definition registerGifShareEvent (this : ref) (id : string)
    (parameters : option ref) : M (option Json) :=
  rest <- spread parameters ;;
  literal <- object (assign [("id", VString id)] rest) ;;
  response <- fetchTenorApiEndpoint registershare literal ;;
  property response "status".

End Client.

(** * Vocabulary of the statements *)

(** ** Objects and the store *)

Definition unfrozen (fields : Props) : Obj := {| props := fields; frozen := false |}.
Definition frozenObj (fields : Props) : Obj := {| props := fields; frozen := true |}.

(** What [spread] reads from a store: the fields of the source, none for
    [undefined]; [None] for a reference that is not allocated. *)
Definition spreadOf (h : list Obj) (source : option ref) : option Props :=
  match source with
  | Some r => option_map props (h !! r)
  | None => Some []
  end.

(** The world after a call: objects were allocated, events were added, and
    nothing else changed. *)
Definition extended (w : World) (fresh : list Obj) (events : list Event) : World :=
  {| heap := (heap w ++ fresh)%list;
     instances := instances w;
     trace := (trace w ++ events)%list |}.

(** The references a call is given are allocated: [this] is the instance
    [self], whose options hold [fromOptions], and the call's parameter object
    holds [fromParameters] (no fields for [undefined]). *)
Record Ready (w : World) (this : ref) (parameters : option ref)
    (self : TenorApi) (fromOptions fromParameters : Props) : Prop := {
  ready_this : instances w !! this = Some self;
  ready_options : spreadOf (heap w) (options self) = Some fromOptions;
  ready_parameters : spreadOf (heap w) parameters = Some fromParameters
}.

(** The instances and every object allocated before are as they were. *)
Definition preserves (w w' : World) : Prop :=
  instances w' = instances w /\
  forall r o, heap w !! r = Some o -> heap w' !! r = Some o.

(** The computation returned a reference that was not allocated before and
    now points to a frozen object. *)
Definition returnsFrozenNew (w : World) (run : World * Result ref) : Prop :=
  exists r o,
    snd run = Ok r /\ heap w !! r = None /\
    heap (fst run) !! r = Some o /\ frozen o = true.

(** ** The normalizer *)

(** The fields of the interface [EndpointParameters] of [tenor.types]. *)
Definition EndpointParameters_keys : list string :=
  [ "aspectRatioRange"; "clientKey"; "contentFilter"; "country"; "id"; "ids";
    "key"; "limit"; "locale"; "contentFormats"; "positionId"; "isRandomOrder";
    "searchFilter"; "type"; "searchTerm" ].

(** An object of type [EndpointParameters]: distinct property names, each a
    field of the interface.  (Nothing is asked of the values.) *)
Definition isEndpointParameters (ps : Props) : Prop :=
  List.NoDup (keys ps) /\ Forall (fun k => In k EndpointParameters_keys) (keys ps).

(** What the loop of [renameParameters] writes for one entry. *)
Definition renameEntry (entry : string * Value) : string * Value :=
  (newNameOf (fst entry), snd entry).

(** The loop of [renameParameters] on the properties themselves. *)
Definition renameInto (renamedParameters parameters : Props) : Props :=
  fold_left (fun acc entry => assign acc [renameEntry entry]) parameters
            renamedParameters.

(** ** The query builder *)

(** Whether [createUrlParameters] appends a parameter for a value: it is
    truthy and not an empty array. *)
Definition retained (value : Value) : bool :=
  ToBoolean value && negb (Array_isArray value && (Array_length value =? 0)%nat).

(** The parameters one entry contributes: one or none. *)
Definition parameterOf (entry : string * Value) : URLSearchParams.t :=
  if retained (snd entry) then [(fst entry, JS.toString (snd entry))] else [].

(** [URLSearchParams.prototype.getAll]: the values of all pairs with a name,
    in order. *)
Definition getAll (params : URLSearchParams.t) (name : string) : list string :=
  map snd (List.filter (fun p => String.eqb (fst p) name) params).

(** No parameter of the query string has that name. *)
Definition omits (query name : string) : Prop :=
  getAll (URLSearchParams.parse query) name = [].

(** The query string has exactly one parameter of that name, with that
    value, written as the urlencoded name, [=], and the urlencoded value. *)
Definition carriesOnce (query name value : string) : Prop :=
  getAll (URLSearchParams.parse query) name = [value] /\
  In (URLSearchParams.encode name ++ "=" ++ URLSearchParams.encode value)
     (URLSearchParams.split "&" query).

(** Whether a byte occurs in a string. *)
Fixpoint contains (c : ascii) (s : string) : bool :=
  match s with
  | EmptyString => false
  | String c' rest => Ascii.eqb c' c || contains c rest
  end.

(** [String.prototype.endsWith]. *)
Fixpoint endsWith (s suffix : string) : bool :=
  if String.eqb s suffix then true
  else match s with
       | EmptyString => false
       | String _ rest => endsWith rest suffix
       end.

(** The pipeline [createUrlParameters(renameParameters(p)).toString()], as
    [fetchTenorApiEndpoint] and [getGifsByCategory] run it. *)
Definition queryString (parameters : ref) : M string :=
  renamed <- renameParameters parameters ;;
  urlParameters <- createUrlParameters renamed ;;
  ret (URLSearchParams.toString urlParameters).

(** The query string that pipeline gives for an object with these fields. *)
Definition queryOf (fields : Props) : string :=
  URLSearchParams.toString (flat_map parameterOf (renameInto [] fields)).

(** The URL [fetchTenorApiEndpoint] requests for an object with these
    fields. *)
Definition endpointUrl (resourceName : ResourceName) (fields : Props) : string :=
  URL (ResourceName_toString resourceName ++ "?" ++ queryOf fields) baseUrl.

(** What parsing a query string yields for a name, as a JavaScript value:
    a string, or [undefined] when no parameter has the name. *)
Definition recovered (params : URLSearchParams.t) (name : string) : option Value :=
  option_map VString (URLSearchParams.get params name).

(** ** References the URL parser leaves as they are *)

Definition isAlphanumeric (c : ascii) : bool :=
  let n := N_of_ascii c in
  ((48 <=? n) && (n <=? 57) || (65 <=? n) && (n <=? 90) ||
   (97 <=? n) && (n <=? 122))%N.

(** In the path of a reference: alphanumerics, [-], [_], [~] and the slash.
    (No dot, so no dot segment; no colon, so no scheme; no backslash.) *)
Definition plainPathChar (c : ascii) : bool :=
  isAlphanumeric c ||
  Ascii.eqb c "-" || Ascii.eqb c "_" || Ascii.eqb c "~" || Ascii.eqb c "/".

(** In the query of a reference: alphanumerics and the punctuation the URL
    parser keeps in a query.  All bytes of a urlencoded string are among
    them. *)
Definition plainQueryChar (c : ascii) : bool :=
  isAlphanumeric c ||
  existsb (Ascii.eqb c)
    ["-"; "."; "_"; "~"; "*"; "+"; "%"; "="; "&"; ","; ";"; ":"; "@"; "/";
     "?"; "!"; "$"; "("; ")"]%char.

Fixpoint plainQuery (s : string) : bool :=
  match s with
  | EmptyString => true
  | String c rest => plainQueryChar c && plainQuery rest
  end.

(** A plain path, a question mark, and a plain query. *)
Fixpoint plainPathAndQuery (s : string) : bool :=
  match s with
  | EmptyString => false
  | String c rest =>
      if Ascii.eqb c "?" then plainQuery rest
      else plainPathChar c && plainPathAndQuery rest
  end.

Definition startsWithTwoSlashes (s : string) : bool :=
  match s with
  | String c (String c' _) => Ascii.eqb c "/" && Ascii.eqb c' "/"
  | _ => false
  end.

(** A reference that [new URL] resolves against the base without rewriting
    it: it has a path and a query as above and does not begin with two
    slashes (which would start an authority).  [search?q=excited] is one, and
    so is [/v2/search?q=excited&locale=en]. *)
Definition plainReference (s : string) : bool :=
  negb (startsWithTwoSlashes s) && plainPathAndQuery s.

(** ** The invoker *)

(** What [fetchTenorApi] makes of the transport's answer. *)
Definition settle (outcome : Result Response) : Result Json :=
  match outcome with
  | Throw e => Throw e
  | Ok response =>
      match json response with
      | Throw e => Throw e
      | Ok jsonResponse =>
          if negb (Response_ok response) then
            match readProperty jsonResponse "error" with
            | Ok error => Throw (GoogleApiError error)
            | Throw e => Throw e
            end
          else Ok jsonResponse
      end
  end.

(** ** The client *)

(** The fields [#combineParameters] merges: the key, then the client's
    options, then the parameters of the call. *)
Definition combinedFields (key : string) (fromOptions fromParameters : Props) : Props :=
  assign (assign [("key", VString key)] fromOptions) fromParameters.

(** The first layer: the access key alone. *)
Definition keyLayer (self : TenorApi) : Props := [("key", VString (key self))].

(** Reading a field through the layers, the later layer first. *)
Definition layered (k : string) (layers : list Props) : option Value :=
  fold_left (fun found layer =>
               match JS.get k layer with
               | Some v => Some v
               | None => found
               end) layers None.

(** A call of a public method of [TenorApi], with its arguments. *)
Inductive Call : Type :=
| SearchTermSuggestions (searchTerm : string) (parameters : option ref)
| SearchTermAutocompletes (searchTerm : string) (parameters : option ref)
| TrendingSearchTerms (parameters : option ref)
| GifsBySearch (searchTerm : string) (parameters : option ref)
| GifsByCategory (category : GifCategory) (parameters : option ref)
| GifsById (ids : list string) (parameters : option ref)
| FeaturedGifs (parameters : option ref)
| GifCategories (parameters : option ref)
| RegisterGifShareEvent (id : string) (parameters : option ref).

(** The parameter object of a call. *)
Definition parametersOf (call : Call) : option ref :=
  match call with
  | SearchTermSuggestions _ parameters
  | SearchTermAutocompletes _ parameters
  | TrendingSearchTerms parameters
  | GifsBySearch _ parameters
  | GifsByCategory _ parameters
  | GifsById _ parameters
  | FeaturedGifs parameters
  | GifCategories parameters
  | RegisterGifShareEvent _ parameters => parameters
  end.

(** The resource a call names; [getGifsByCategory] names none, it takes the
    path of its category. *)
Definition resourceOf (call : Call) : option ResourceName :=
  match call with
  | SearchTermSuggestions _ _ => Some search_suggestions
  | SearchTermAutocompletes _ _ => Some autocomplete
  | TrendingSearchTerms _ => Some trending_terms
  | GifsBySearch _ _ => Some search
  | GifsByCategory _ _ => None
  | GifsById _ _ => Some posts
  | FeaturedGifs _ => Some featured
  | GifCategories _ => Some categories
  | RegisterGifShareEvent _ _ => Some registershare
  end.

(** The fields a call supplies: the leading argument, if the method has
    one, and then the fields of its parameter object. *)
Definition suppliedFields (call : Call) (fromParameters : Props) : Props :=
  match call with
  | SearchTermSuggestions searchTerm _
  | SearchTermAutocompletes searchTerm _
  | GifsBySearch searchTerm _ =>
      assign [("searchTerm", VString searchTerm)] fromParameters
  | GifsById ids _ => assign [("ids", VArray ids)] fromParameters
  | RegisterGifShareEvent id _ => assign [("id", VString id)] fromParameters
  | TrendingSearchTerms _ | GifsByCategory _ _ | FeaturedGifs _
  | GifCategories _ => fromParameters
  end.

(** Whether the method goes through [#combineParameters]: all do, except
    [registerGifShareEvent]. *)
Definition combines (call : Call) : bool :=
  match call with
  | RegisterGifShareEvent _ _ => false
  | _ => true
  end.

(** The fields a call hands on: what the caller supplied, merged into the
    key and the options when the method combines. *)
Definition handedFields (self : TenorApi) (call : Call)
    (fromOptions fromParameters : Props) : Props :=
  if combines call then
    combinedFields (key self) fromOptions (suppliedFields call fromParameters)
  else suppliedFields call fromParameters.

(** What a call adds to the trace. *)
Definition eventsOf (self : TenorApi) (call : Call)
    (fromOptions fromParameters : Props) : list Event :=
  let fields := handedFields self call fromOptions fromParameters in
  match call, resourceOf call with
  | GifsByCategory category _, _ =>
      [Get (URL (path category ++ "&" ++ queryOf fields) baseUrl)]
  | _, Some resourceName =>
      [Invoked resourceName fields; Get (endpointUrl resourceName fields)]
  | _, None => []
  end.

(** The objects a call allocates: the literal holding the leading argument
    (if the method has one), the combined parameters (if the method
    combines), and the renamed parameters. *)
Definition allocatedBy (self : TenorApi) (call : Call)
    (fromOptions fromParameters : Props) : list Obj :=
  let supplied := suppliedFields call fromParameters in
  let fields := handedFields self call fromOptions fromParameters in
  ((match call with
    | TrendingSearchTerms _ | GifsByCategory _ _ | FeaturedGifs _
    | GifCategories _ => []
    | _ => [unfrozen supplied]
    end) ++
   (if combines call then [frozenObj fields] else []) ++
   [frozenObj (renameInto [] fields)])%list.

Section Calls.

Variable network : list string -> string -> Result Response.

(** Running a call: the method's result, as a JavaScript value. *)
Definition perform (this : ref) (call : Call) : M (option Json) :=
  match call with
  | SearchTermSuggestions searchTerm parameters =>
      body <- getSearchTermSuggestions network this searchTerm parameters ;;
      ret (Some body)
  | SearchTermAutocompletes searchTerm parameters =>
      body <- getSearchTermAutocompletes network this searchTerm parameters ;;
      ret (Some body)
  | TrendingSearchTerms parameters =>
      body <- getTrendingSearchTerms network this parameters ;; ret (Some body)
  | GifsBySearch searchTerm parameters =>
      body <- getGifsBySearch network this searchTerm parameters ;; ret (Some body)
  | GifsByCategory category parameters =>
      body <- getGifsByCategory network this category parameters ;; ret (Some body)
  | GifsById ids parameters =>
      body <- getGifsById network this ids parameters ;; ret (Some body)
  | FeaturedGifs parameters =>
      body <- getFeaturedGifs network this parameters ;; ret (Some body)
  | GifCategories parameters =>
      body <- getGifCategories network this parameters ;; ret (Some body)
  | RegisterGifShareEvent id parameters =>
      registerGifShareEvent network this id parameters
  end.

(** The two shapes most methods share: with a leading argument put in front
    of the parameters, and without. *)
Definition withLeading (this : ref) (first : string * Value)
    (resourceName : ResourceName) (parameters : option ref) : M Json :=
  rest <- spread parameters ;;
  literal <- object (assign [first] rest) ;;
  combined <- combineParameters this (Some literal) ;;
  fetchTenorApiEndpoint network resourceName combined.

Definition plainly (this : ref) (resourceName : ResourceName)
    (parameters : option ref) : M Json :=
  combined <- combineParameters this parameters ;;
  fetchTenorApiEndpoint network resourceName combined.

End Calls.

(** ** Example data *)

(** Some numbers: [0], [NaN], [8], [50], [0.5] and ten to the twenty-first,
    each with what [toString()] gives for it. *)
Definition zero : number := {| isZeroOrNaN := true; Number_toString := "0" |}.
Definition NaN : number := {| isZeroOrNaN := true; Number_toString := "NaN" |}.
Definition eight : number := {| isZeroOrNaN := false; Number_toString := "8" |}.
Definition fifty : number := {| isZeroOrNaN := false; Number_toString := "50" |}.
Definition half : number := {| isZeroOrNaN := false; Number_toString := "0.5" |}.
Definition sextillion : number :=
  {| isZeroOrNaN := false; Number_toString := "1e+21" |}.

(** A store with the options [{clientKey: "my_test_app"}] (0), parameter
    objects (1, 2, 4, 5), an object with normalized names (3), and two
    clients with the key [KEY]: one with the options (0), one without (1). *)
Definition exampleWorld : World :=
  {| heap :=
       [ unfrozen [("clientKey", VString "my_test_app")];
         unfrozen [("limit", VNumber eight)];
         unfrozen [("searchTerm", VString "excited")];
         unfrozen [("q", VString "so excited"); ("limit", VNumber zero);
                   ("random", VBoolean false);
                   ("media_filter", VArray ["gif"; "mp4"]);
                   ("searchfilter", VArray []); ("pos", VUndefined);
                   ("client_key", VString ""); ("key", VString "a&b=c")];
         unfrozen [("searchTerm", VString "excited"); ("limit", VNumber eight);
                   ("contentFormats", VArray ["gif"])];
         unfrozen [("limit", VNumber eight); ("contentFormats", VArray ["gif"]);
                   ("searchTerm", VString "excited")] ];
     instances :=
       [ {| key := "KEY"; options := Some 0%nat |};
         {| key := "KEY"; options := None |} ];
     trace := [] |}.

Definition exampleClient : TenorApi := {| key := "KEY"; options := Some 0%nat |}.

(** A transport that answers every request with one status and body. *)
Definition respond (status : Z) (body : Json) : list string -> string -> Result Response :=
  fun _ _ => Ok {| status := status; json := Ok body |}.

Definition excited : GifCategory :=
  {| searchterm := "excited"; path := "search?q=excited";
     image := "https://media.tenor.com/excited.gif"; name := "#excited" |}.

Definition badRequest : Json :=
  JObject [("error", JObject [("code", JString "BAD_REQUEST");
                              ("message", JString "x")])].

Definition emptyResults : Json :=
  JObject [("results", JArray []); ("next", JString "")].

(** ** Requests and results of a call *)

(** The URL a call requests. *)
Definition requestUrl (self : TenorApi) (call : Call)
    (fromOptions fromParameters : Props) : string :=
  let fields := handedFields self call fromOptions fromParameters in
  match call, resourceOf call with
  | GifsByCategory category _, _ => URL (path category ++ "&" ++ queryOf fields) baseUrl
  | _, Some resourceName => endpointUrl resourceName fields
  | _, None => baseUrl
  end.

(** What a method makes of the invoker's outcome: [registerGifShareEvent]
    reads the [status] of the body, the others return the body. *)
Definition resultOf (call : Call) (outcome : Result Json) : Result (option Json) :=
  match outcome with
  | Throw e => Throw e
  | Ok body =>
      match call with
      | RegisterGifShareEvent _ _ => readProperty body "status"
      | _ => Ok (Some body)
      end
  end.

(** The entries of an object for which [createUrlParameters] appends a
    parameter. *)
Definition retainedEntries (entries : Props) : Props :=
  List.filter (fun entry => retained (snd entry)) entries.


(** [renameParameters] applied to its own result. *)
Definition renameTwice (parameters : ref) : M (ref * ref) :=
  once <- renameParameters parameters ;;
  twice <- renameParameters once ;;
  ret (once, twice).

(** What precedes the query string in the reference of a call: the
    resource name and [?], or the path of the category and [&]. *)
Definition urlPrefix (call : Call) : string :=
  match call, resourceOf call with
  | GifsByCategory category _, _ => path category ++ "&"
  | _, Some resourceName => ResourceName_toString resourceName ++ "?"
  | _, None => ""
  end.

(** The leading argument of a method, as the field it is put under in the
    object literal [{ searchTerm, ...parameters }] (or [ids], or [id]). *)
Definition leadingOf (call : Call) : option (string * Value) :=
  match call with
  | SearchTermSuggestions searchTerm _
  | SearchTermAutocompletes searchTerm _
  | GifsBySearch searchTerm _ => Some ("searchTerm", VString searchTerm)
  | GifsById ids _ => Some ("ids", VArray ids)
  | RegisterGifShareEvent id _ => Some ("id", VString id)
  | TrendingSearchTerms _ | GifsByCategory _ _ | FeaturedGifs _
  | GifCategories _ => None
  end.

(** What a plain reference is resolved against: the origin of the base when
    it has a leading slash, the base otherwise. *)
Definition resolutionBase (reference : string) : string :=
  if startsWithSlash reference then originOf baseUrl else baseUrl.

(** What the URL of a call begins with. *)
Definition referenceBase (call : Call) : string :=
  match call with
  | GifsByCategory category _ => resolutionBase (path category)
  | _ => baseUrl
  end.

(** The reference a call takes from its caller, the path of the category,
    is a plain one.  (The other methods build their reference from a resource
    name of their own.) *)
Definition wellReferenced (call : Call) : Prop :=
  match call with
  | GifsByCategory category _ => plainReference (path category) = true
  | _ => True
  end.

(** ** More example data *)

(** A category whose path has a leading slash, as the categories endpoint
    returns them. *)
Definition excitedFromRoot : GifCategory :=
  {| searchterm := "excited";
     path := "/v2/search?q=excited&locale=en&component=categories&contentfilter=high";
     image := "https://media.tenor.com/excited.gif"; name := "#excited" |}.

(** A store with one object of normalized names that holds values of every
    kind: numbers ([50], ten to the twenty-first, a fraction, [0], [NaN]),
    both booleans, strings, arrays. *)
Definition mixedWorld : World :=
  {| heap :=
       [ unfrozen [("q", VString "so excited"); ("limit", VNumber fifty);
                   ("random", VBoolean true); ("pos", VNumber sextillion);
                   ("ar_range", VNumber half); ("country", VNumber zero);
                   ("locale", VNumber NaN); ("searchfilter", VBoolean false);
                   ("media_filter", VArray ["gif"; "mp4"]);
                   ("ids", VArray []); ("type", VUndefined);
                   ("client_key", VString ""); ("key", VString "a&b=c")] ];
     instances := [];
     trace := [] |}.

(** A store with an object outside the type (two properties sent under the
    name [q]) (0), an object with nothing to send (1), and the empty
    object (2). *)
Definition oddWorld : World :=
  {| heap :=
       [ unfrozen [("q", VString "a"); ("limit", VNumber eight);
                   ("searchTerm", VString "b")];
         unfrozen [("limit", VNumber zero); ("searchTerm", VString "");
                   ("contentFormats", VArray []); ("positionId", VUndefined)];
         unfrozen [] ];
     instances := [];
     trace := [Get "https://tenor.googleapis.com/v2/categories?key=KEY"] |}.

(** A transport that rejects every request. *)
Definition unreachable : list string -> string -> Result Response :=
  fun _ _ => Throw (NetworkError "unreachable").

(** A transport that answers with a body that does not decode. *)
Definition garbled (status : Z) : list string -> string -> Result Response :=
  fun _ _ => Ok {| status := status; json := Throw SyntaxError |}.

(** * Properties *)

Ltac distinct_names :=
  repeat (constructor; [simpl; intuition discriminate|]); constructor.

Ltac ready := constructor; reflexivity.

(** ** Property lists *)

Section PropsFacts.

Implicit Types (ps target source : Props) (k : string) (v : Value).

Lemma eqb_refl_true k : String.eqb k k = true.
Proof. apply String.eqb_eq. reflexivity. Qed.

Lemma eqb_false_of_ne k k' : k <> k' -> String.eqb k k' = false.
Proof. intros H. apply String.eqb_neq. exact H. Qed.

Lemma get_None_iff k ps : JS.get k ps = None <-> ~ In k (keys ps).
Proof.
  induction ps as [|[k' v'] ps IH]; simpl.
  - tauto.
  - destruct (String.eqb_spec k' k) as [->|Hne].
    + split; [discriminate | intros H; exfalso; apply H; left; reflexivity].
    + rewrite IH. split; [intros H [E|E]; [congruence | tauto] | tauto].
Qed.

Lemma get_of_In k v ps : List.NoDup (keys ps) -> In (k, v) ps -> JS.get k ps = Some v.
Proof.
  induction ps as [|[k' v'] ps IH]; simpl; intros Hnd Hin; [tauto|].
  inversion Hnd as [|? ? Hnotin Hnd']; subst.
  destruct Hin as [E|Hin].
  - inversion E; subst. rewrite eqb_refl_true. reflexivity.
  - destruct (String.eqb_spec k' k) as [->|Hne].
    + exfalso. apply Hnotin. apply (in_map fst) in Hin. exact Hin.
    + apply IH; assumption.
Qed.

Lemma get_In k v ps : JS.get k ps = Some v -> In (k, v) ps.
Proof.
  induction ps as [|[k' v'] ps IH]; simpl; [discriminate|].
  destruct (String.eqb_spec k' k) as [->|Hne].
  - intros E; inversion E; subst. left; reflexivity.
  - intros H; right; apply IH; exact H.
Qed.

Lemma get_set_eq k v ps : JS.get k (JS.set k v ps) = Some v.
Proof.
  induction ps as [|[k' v'] ps IH]; simpl.
  - rewrite eqb_refl_true. reflexivity.
  - destruct (String.eqb_spec k' k) as [->|Hne]; simpl.
    + rewrite eqb_refl_true. reflexivity.
    + rewrite (eqb_false_of_ne _ _ Hne). exact IH.
Qed.

Lemma get_set_ne k k' v ps : k <> k' -> JS.get k' (JS.set k v ps) = JS.get k' ps.
Proof.
  intros Hne. induction ps as [|[k0 v0] ps IH]; simpl.
  - rewrite (eqb_false_of_ne _ _ Hne). reflexivity.
  - destruct (String.eqb_spec k0 k) as [->|Hne0]; simpl.
    + rewrite (eqb_false_of_ne _ _ Hne). reflexivity.
    + destruct (String.eqb k0 k'); [reflexivity | exact IH].
Qed.

Lemma set_fresh k v ps : ~ In k (keys ps) -> JS.set k v ps = (ps ++ [(k, v)])%list.
Proof.
  induction ps as [|[k' v'] ps IH]; simpl; intros Hnotin; [reflexivity|].
  destruct (String.eqb_spec k' k) as [->|Hne]; [tauto|].
  rewrite IH; [reflexivity | tauto].
Qed.

Lemma keys_set_In k v ps : In k (keys ps) -> keys (JS.set k v ps) = keys ps.
Proof.
  induction ps as [|[k' v'] ps IH]; simpl; intros Hin; [tauto|].
  destruct (String.eqb_spec k' k) as [->|Hne]; simpl; [reflexivity|].
  f_equal. apply IH. destruct Hin; [congruence | assumption].
Qed.

Lemma NoDup_keys_set k v ps : List.NoDup (keys ps) -> List.NoDup (keys (JS.set k v ps)).
Proof.
  intros Hnd. destruct (in_dec string_dec k (keys ps)) as [Hin|Hnotin].
  - rewrite keys_set_In; assumption.
  - rewrite set_fresh by assumption. unfold keys. rewrite map_app. simpl.
    apply List.NoDup_app; [exact Hnd | repeat constructor; intros [] |].
    intros x Hx [<-|[]]. apply Hnotin. exact Hx.
Qed.

Lemma assign_cons target k v source :
  assign target ((k, v) :: source) = assign (JS.set k v target) source.
Proof. reflexivity. Qed.

Lemma NoDup_keys_assign target source :
  List.NoDup (keys target) -> List.NoDup (keys (assign target source)).
Proof.
  revert target. induction source as [|[k v] source IH]; intros target Hnd.
  - exact Hnd.
  - rewrite assign_cons. apply IH. apply NoDup_keys_set. exact Hnd.
Qed.

(** Reading a merged object: the source's value if the source has the
    property, the target's otherwise. *)
Lemma get_assign k target source :
  List.NoDup (keys source) ->
  JS.get k (assign target source) =
    match JS.get k source with
    | Some v => Some v
    | None => JS.get k target
    end.
Proof.
  revert target. induction source as [|[k1 v1] source IH]; intros target Hnd.
  - reflexivity.
  - inversion Hnd as [|? ? Hnotin Hnd']; subst.
    rewrite assign_cons, IH by assumption. simpl.
    destruct (String.eqb_spec k1 k) as [->|Hne].
    + assert (JS.get k source = None) as -> by (apply get_None_iff; exact Hnotin).
      apply get_set_eq.
    + destruct (JS.get k source); [reflexivity|]. apply get_set_ne. exact Hne.
Qed.

End PropsFacts.

(** ** The rename table *)

Section RenameFacts.

Lemma lookupName_Some_In table k n :
  lookupName table k = Some n -> In n (map snd table).
Proof.
  induction table as [|[k' n'] table IH]; simpl; [discriminate|].
  destruct (String.eqb k' k).
  - intros E; inversion E; subst. left; reflexivity.
  - intros H; right; apply IH; exact H.
Qed.

Lemma wire_names_not_renamed :
  forallb (fun n => match lookupName newParameterNames n with
                    | None => true
                    | Some _ => false
                    end) (map snd newParameterNames) = true.
Proof. vm_compute. reflexivity. Qed.

(** No parameter is sent under a name that the table renames. *)
Lemma newNameOf_not_renamed k0 k n :
  lookupName newParameterNames k = Some n -> newNameOf k0 <> k.
Proof.
  intros Hk E. unfold newNameOf in E.
  destruct (lookupName newParameterNames k0) as [n0|] eqn:Hk0.
  - apply lookupName_Some_In in Hk0. subst n0.
    pose proof wire_names_not_renamed as Hall.
    rewrite forallb_forall in Hall. specialize (Hall _ Hk0).
    rewrite Hk in Hall. discriminate.
  - subst k0. congruence.
Qed.

Lemma newNameOf_injective_check :
  forallb (fun k1 =>
    forallb (fun k2 =>
      implb (String.eqb (newNameOf k1) (newNameOf k2)) (String.eqb k1 k2))
      EndpointParameters_keys) EndpointParameters_keys = true.
Proof. vm_compute. reflexivity. Qed.

(** On the fields of [EndpointParameters] the renaming is one-to-one. *)
Lemma newNameOf_injective k1 k2 :
  In k1 EndpointParameters_keys -> In k2 EndpointParameters_keys ->
  newNameOf k1 = newNameOf k2 -> k1 = k2.
Proof.
  intros H1 H2 E. pose proof newNameOf_injective_check as Hall.
  rewrite forallb_forall in Hall. specialize (Hall _ H1).
  rewrite forallb_forall in Hall. specialize (Hall _ H2).
  rewrite E, eqb_refl_true in Hall. simpl in Hall.
  apply String.eqb_eq. exact Hall.
Qed.

Lemma NoDup_newNames ps :
  isEndpointParameters ps -> List.NoDup (map newNameOf (keys ps)).
Proof.
  intros [Hnd Hall]. apply Finite.Injective_map_NoDup_in; [|exact Hnd].
  rewrite List.Forall_forall in Hall.
  intros x y Hx Hy. apply newNameOf_injective; apply Hall; assumption.
Qed.

Lemma keys_map_renameEntry ps : keys (map renameEntry ps) = map newNameOf (keys ps).
Proof. unfold keys. rewrite !map_map. reflexivity. Qed.

(** Without a clash of new names the loop appends the renamed entries in
    order. *)
Lemma renameInto_fresh ps acc :
  List.NoDup (map newNameOf (keys ps)) ->
  (forall k, In k (keys ps) -> ~ In (newNameOf k) (keys acc)) ->
  renameInto acc ps = (acc ++ map renameEntry ps)%list.
Proof.
  revert acc. induction ps as [|[k v] ps IH]; intros acc Hnd Hfresh.
  - simpl. rewrite app_nil_r. reflexivity.
  - simpl in Hnd. inversion Hnd as [|? ? Hnotin Hnd']; subst.
    unfold renameInto in *. simpl fold_left.
    change (assign acc [renameEntry (k, v)]) with (JS.set (newNameOf k) v acc).
    rewrite set_fresh by (apply Hfresh; left; reflexivity).
    rewrite IH; [rewrite <- app_assoc; reflexivity | exact Hnd' |].
    intros k' Hk' Hin. unfold keys in Hin. rewrite map_app in Hin.
    apply in_app_or in Hin. destruct Hin as [Hin|[E|[]]].
    + apply (Hfresh k'); [right; exact Hk' | exact Hin].
    + simpl in E. apply Hnotin. rewrite E.
      apply in_map. exact Hk'.
Qed.

Lemma renameInto_EndpointParameters ps :
  isEndpointParameters ps -> renameInto [] ps = map renameEntry ps.
Proof.
  intros H. apply (renameInto_fresh ps []); [apply NoDup_newNames; exact H|].
  intros k _ [].
Qed.

(** Every property of the result was written for some entry of the input. *)
Lemma renameInto_origin ps acc k' v :
  JS.get k' (renameInto acc ps) = Some v ->
  JS.get k' acc = Some v \/ exists k, In (k, v) ps /\ newNameOf k = k'.
Proof.
  revert acc. induction ps as [|[k0 v0] ps IH]; intros acc H.
  - left. exact H.
  - unfold renameInto in *. simpl fold_left in H.
    change (assign acc [renameEntry (k0, v0)]) with (JS.set (newNameOf k0) v0 acc) in H.
    apply IH in H. destruct H as [H|(k & Hin & E)].
    + destruct (string_dec (newNameOf k0) k') as [E|Hne].
      * subst k'. rewrite get_set_eq in H. inversion H; subst.
        right. exists k0. split; [left; reflexivity | reflexivity].
      * rewrite get_set_ne in H by exact Hne. left. exact H.
    + right. exists k. split; [right; exact Hin | exact E].
Qed.

Lemma NoDup_keys_renameInto ps acc :
  List.NoDup (keys acc) -> List.NoDup (keys (renameInto acc ps)).
Proof.
  revert acc. induction ps as [|[k v] ps IH]; intros acc Hnd; [exact Hnd|].
  unfold renameInto in *. simpl fold_left. apply IH.
  apply (NoDup_keys_assign acc [renameEntry (k, v)]). exact Hnd.
Qed.

End RenameFacts.

(** ** The urlencoded serializer and parser are inverse *)

Module URLSearchParamsFacts.

Import URLSearchParams.

Lemma append_assoc (a b c : string) : (a ++ b) ++ c = a ++ (b ++ c).
Proof. induction a as [|x a IH]; simpl; [reflexivity | rewrite IH; reflexivity]. Qed.

Lemma append_nil_r (a : string) : a ++ "" = a.
Proof. induction a as [|x a IH]; simpl; [reflexivity | rewrite IH; reflexivity]. Qed.

Lemma contains_append c a b : contains c (a ++ b) = contains c a || contains c b.
Proof.
  induction a as [|x a IH]; simpl; [reflexivity|].
  rewrite IH. apply orb_assoc.
Qed.

Lemma plusToSpace_append a b : plusToSpace (a ++ b) = plusToSpace a ++ plusToSpace b.
Proof. induction a as [|x a IH]; simpl; [reflexivity | rewrite IH; reflexivity]. Qed.

(** One encoded byte decodes to that byte, whatever follows it. *)
Lemma decode_encodeByte b t :
  percentDecode (plusToSpace (encodeByte b) ++ t) = String b (percentDecode t).
Proof.
  destruct b as [[] [] [] [] [] [] [] []];
    first [ reflexivity | destruct t as [|h [|l t]]; reflexivity ].
Qed.

Lemma decode_encode s : decode (encode s) = s.
Proof.
  unfold decode. induction s as [|b s IH]; simpl; [reflexivity|].
  rewrite plusToSpace_append, decode_encodeByte, IH. reflexivity.
Qed.

(** The serializer never emits a separator inside a name or a value. *)
Lemma encodeByte_no_separator b :
  contains "&" (encodeByte b) = false /\ contains "=" (encodeByte b) = false.
Proof. destruct b as [[] [] [] [] [] [] [] []]; split; reflexivity. Qed.

Lemma encode_no_amp s : contains "&" (encode s) = false.
Proof.
  induction s as [|b s IH]; simpl; [reflexivity|].
  rewrite contains_append, IH, (proj1 (encodeByte_no_separator b)). reflexivity.
Qed.

Lemma encode_no_eq s : contains "=" (encode s) = false.
Proof.
  induction s as [|b s IH]; simpl; [reflexivity|].
  rewrite contains_append, IH, (proj2 (encodeByte_no_separator b)). reflexivity.
Qed.

Lemma encodePair_no_amp p : contains "&" (encodePair p) = false.
Proof.
  unfold encodePair. rewrite !contains_append, !encode_no_amp. reflexivity.
Qed.

Lemma encodePair_nonempty p : String.eqb (encodePair p) "" = false.
Proof.
  unfold encodePair. destruct (encode (fst p)); reflexivity.
Qed.

Lemma cut_append name value :
  contains "=" name = false -> cut (name ++ String "=" value) = (name, value).
Proof.
  induction name as [|c name IH]; simpl; intros H; [reflexivity|].
  apply orb_false_iff in H. destruct H as [Hc Hrest].
  rewrite Hc, (IH Hrest). reflexivity.
Qed.

Lemma parsePiece_encodePair p : parsePiece (encodePair p) = p.
Proof.
  destruct p as [name value]. unfold parsePiece, encodePair.
  change (encode (fst (name, value)) ++ "=" ++ encode (snd (name, value)))
    with (encode name ++ String "=" (encode value)).
  rewrite cut_append by apply encode_no_eq.
  rewrite !decode_encode. reflexivity.
Qed.

Lemma split_plain sep a : contains sep a = false -> split sep a = [a].
Proof.
  induction a as [|c a IH]; simpl; intros H; [reflexivity|].
  apply orb_false_iff in H. destruct H as [Hc Hrest].
  rewrite Hc, (IH Hrest). reflexivity.
Qed.

Lemma split_append sep a rest :
  contains sep a = false ->
  split sep (a ++ String sep rest) = a :: split sep rest.
Proof.
  induction a as [|c a IH]; simpl; intros H.
  - rewrite Ascii.eqb_refl. reflexivity.
  - apply orb_false_iff in H. destruct H as [Hc Hrest].
    rewrite Hc, (IH Hrest). reflexivity.
Qed.

(** The pieces of a serialized list are its encoded pairs. *)
Lemma split_toString p params :
  split "&" (toString (p :: params)) = map encodePair (p :: params).
Proof.
  revert p. induction params as [|q params IH]; intros p.
  - simpl. apply split_plain, encodePair_no_amp.
  - change (toString (p :: q :: params))
      with (encodePair p ++ String "&" (toString (q :: params))).
    rewrite split_append by apply encodePair_no_amp.
    rewrite IH. reflexivity.
Qed.

Lemma split_toString_nil : split "&" (toString []) = [""].
Proof. reflexivity. Qed.

Lemma filter_nonempty_pieces params :
  List.filter (fun piece => negb (String.eqb piece "")) (map encodePair params)
  = map encodePair params.
Proof.
  induction params as [|p params IH]; simpl; [reflexivity|].
  rewrite encodePair_nonempty. simpl. rewrite IH. reflexivity.
Qed.

(** Parsing what the serializer wrote gives the list back. *)
Theorem parse_toString params : parse (toString params) = params.
Proof.
  unfold parse. destruct params as [|p params]; [reflexivity|].
  rewrite split_toString, filter_nonempty_pieces, map_map.
  rewrite <- (map_id (p :: params)) at 2.
  apply map_ext. intros q. apply parsePiece_encodePair.
Qed.

Lemma get_app_fresh params name value :
  get params name = None -> get (append params name value) name = Some value.
Proof.
  unfold append. induction params as [|[n v] params IH]; simpl.
  - rewrite eqb_refl_true. reflexivity.
  - destruct (String.eqb n name); [discriminate | exact IH].
Qed.

End URLSearchParamsFacts.

(** ** The loop of [createUrlParameters] *)

Section QueryFacts.

Lemma appendParameter_parameterOf urlParameters entry :
  appendParameter urlParameters entry = (urlParameters ++ parameterOf entry)%list.
Proof.
  destruct entry as [name value]. unfold appendParameter, parameterOf, retained.
  simpl fst; simpl snd.
  destruct (ToBoolean value); simpl; [|rewrite app_nil_r; reflexivity].
  destruct (Array_isArray value && (Array_length value =? 0)%nat); simpl;
    [rewrite app_nil_r|]; reflexivity.
Qed.

Lemma fold_appendParameter entries urlParameters :
  fold_left appendParameter entries urlParameters
  = (urlParameters ++ flat_map parameterOf entries)%list.
Proof.
  revert urlParameters.
  induction entries as [|entry entries IH]; intros urlParameters; simpl.
  - rewrite app_nil_r. reflexivity.
  - rewrite IH, appendParameter_parameterOf, <- app_assoc. reflexivity.
Qed.

Lemma getAll_app params params' name :
  getAll (params ++ params')%list name = (getAll params name ++ getAll params' name)%list.
Proof. unfold getAll. rewrite List.filter_app, List.map_app. reflexivity. Qed.

Lemma getAll_parameterOf_other k k' v : k <> k' -> getAll (parameterOf (k, v)) k' = [].
Proof.
  intros Hne. unfold parameterOf, getAll. simpl.
  destruct (retained v); simpl; [|reflexivity].
  rewrite (eqb_false_of_ne _ _ Hne). reflexivity.
Qed.

Lemma getAll_absent ps k : ~ In k (keys ps) -> getAll (flat_map parameterOf ps) k = [].
Proof.
  induction ps as [|[k' v'] ps IH]; simpl; intros Hnotin; [reflexivity|].
  rewrite getAll_app, IH by tauto.
  rewrite getAll_parameterOf_other; [reflexivity|]. intros E. apply Hnotin.
  left. exact E.
Qed.

(** With distinct property names, the parameters named after a property are
    those its own entry contributes. *)
Lemma getAll_of_entry ps k v :
  List.NoDup (keys ps) -> In (k, v) ps ->
  getAll (flat_map parameterOf ps) k = map snd (parameterOf (k, v)).
Proof.
  induction ps as [|[k' v'] ps IH]; simpl; intros Hnd Hin; [tauto|].
  inversion Hnd as [|? ? Hnotin Hnd']; subst. rewrite getAll_app.
  destruct Hin as [E|Hin].
  - inversion E; subst. rewrite getAll_absent by exact Hnotin.
    rewrite app_nil_r. unfold parameterOf, getAll. simpl.
    destruct (retained v); simpl; [rewrite eqb_refl_true|]; reflexivity.
  - rewrite IH by assumption. rewrite getAll_parameterOf_other; [reflexivity|].
    intros ->. apply Hnotin. apply (List.in_map fst) in Hin. exact Hin.
Qed.

Lemma get_hd_getAll params name :
  URLSearchParams.get params name = hd_error (getAll params name).
Proof.
  unfold getAll. induction params as [|[n v] params IH]; simpl; [reflexivity|].
  destruct (String.eqb n name); [reflexivity | exact IH].
Qed.

(** A pair of the list is a piece of the serialized string. *)
Lemma piece_of_pair params p :
  In p params ->
  In (URLSearchParams.encodePair p)
     (URLSearchParams.split "&" (URLSearchParams.toString params)).
Proof.
  intros Hin. destruct params as [|q params]; [destruct Hin|].
  rewrite URLSearchParamsFacts.split_toString. apply List.in_map. exact Hin.
Qed.

Lemma In_parameterOf ps k v :
  In (k, v) ps -> retained v = true ->
  In (k, JS.toString v) (flat_map parameterOf ps).
Proof.
  intros Hin Hret. apply List.in_flat_map. exists (k, v). split; [exact Hin|].
  unfold parameterOf. simpl. rewrite Hret. left. reflexivity.
Qed.

End QueryFacts.

(** ** What the computations do to the world *)

Section Runs.

Lemma Object_entries_run w r o :
  heap w !! r = Some o -> Object_entries r w = (w, Ok (props o)).
Proof. intros H. unfold Object_entries, bind, deref. rewrite H. reflexivity. Qed.

Lemma spread_run w source fields :
  spreadOf (heap w) source = Some fields -> spread source w = (w, Ok fields).
Proof.
  destruct source as [r|]; simpl.
  - destruct (heap w !! r) as [o|] eqn:Hr; [|discriminate].
    intros E; inversion E; subst. apply Object_entries_run. exact Hr.
  - intros E; inversion E; subst. reflexivity.
Qed.

Lemma lookup_last (h : list Obj) (o : Obj) : (h ++ [o])%list !! length h = Some o.
Proof. apply list_lookup_middle. reflexivity. Qed.

Lemma insert_last (h : list Obj) (o o' : Obj) :
  <[length h := o']> (h ++ [o])%list = (h ++ [o'])%list.
Proof.
  rewrite insert_app_r_alt by lia. rewrite Nat.sub_diag. reflexivity.
Qed.

Lemma lookup_earlier (h : list Obj) (o o' : Obj) r :
  h !! r = Some o -> (h ++ [o'])%list !! r = Some o.
Proof. intros H. apply lookup_app_l_Some. exact H. Qed.

(** The loop of [renameParameters], run on the object allocated last. *)
Lemma rename_loop_run entries h acc i t :
  for_each entries (fun '(currentName, value) =>
      Object_assign (length h) [(newNameOf currentName, value)])
    {| heap := (h ++ [{| props := acc; frozen := false |}])%list;
       instances := i; trace := t |}
  = ({| heap := (h ++ [{| props := renameInto acc entries; frozen := false |}])%list;
        instances := i; trace := t |}, Ok tt).
Proof.
  revert acc. induction entries as [|[k v] entries IH]; intros acc.
  - reflexivity.
  - cbn [for_each]. unfold bind at 1. unfold Object_assign at 1.
    unfold bind at 1, deref at 1. cbn [heap]. rewrite lookup_last.
    cbn [frozen props]. unfold with_heap. cbn [heap instances trace].
    rewrite insert_last. exact (IH (assign acc [renameEntry (k, v)])).
Qed.

Theorem renameParameters_run w r o :
  heap w !! r = Some o ->
  renameParameters r w
  = (with_heap (heap w ++ [{| props := renameInto [] (props o); frozen := true |}])%list w,
     Ok (length (heap w))).
Proof.
  intros Hr. destruct w as [h i t]. cbn [heap] in Hr.
  unfold renameParameters. unfold bind at 1. unfold object at 1.
  unfold with_heap. cbn [heap instances trace].
  unfold bind at 1. erewrite Object_entries_run
    by (cbn [heap]; apply lookup_earlier; exact Hr).
  unfold bind at 1. cbv zeta.
  rewrite (rename_loop_run (props o) h [] i t).
  unfold Object_freeze, bind, deref. cbn [heap]. rewrite lookup_last.
  unfold with_heap. cbn [heap instances trace props].
  rewrite insert_last. reflexivity.
Qed.

Theorem createUrlParameters_run w r o :
  heap w !! r = Some o ->
  createUrlParameters r w = (w, Ok (flat_map parameterOf (props o))).
Proof.
  intros Hr. unfold createUrlParameters, bind.
  rewrite (Object_entries_run _ _ _ Hr). unfold ret.
  rewrite fold_appendParameter. reflexivity.
Qed.

End Runs.

(** ** What the client's methods do to the world *)

Section ClientRuns.

Variable network : list string -> string -> Result Response.

Lemma extended_extended w fresh events fresh' events' :
  extended (extended w fresh events) fresh' events'
  = extended w (fresh ++ fresh')%list (events ++ events')%list.
Proof. unfold extended. cbn [heap instances trace]. rewrite <- !app_assoc. reflexivity. Qed.

Lemma with_heap_extended w o :
  with_heap (heap w ++ [o])%list w = extended w [o] [].
Proof. unfold with_heap, extended. rewrite app_nil_r. reflexivity. Qed.

Lemma spreadOf_extended h fresh source fields :
  spreadOf h source = Some fields -> spreadOf (h ++ fresh)%list source = Some fields.
Proof.
  destruct source as [r|]; simpl; [|tauto].
  destruct (h !! r) as [o|] eqn:Hr; [|discriminate].
  rewrite (lookup_app_l_Some _ _ _ _ Hr). tauto.
Qed.

Lemma requested_Invoked events resourceName fields :
  requested (events ++ [Invoked resourceName fields])%list = requested events.
Proof. unfold requested. rewrite flat_map_app. simpl. apply app_nil_r. Qed.

Theorem fetchTenorApi_run path w :
  fetchTenorApi network path w
  = (extended w [] [Get (URL path baseUrl)],
     settle (network (requested (trace w)) (URL path baseUrl))).
Proof.
  unfold fetchTenorApi, bind, fetch, settle, extended, with_trace.
  rewrite app_nil_r.
  destruct (network (requested (trace w)) (URL path baseUrl)) as [response|e]; [|reflexivity].
  unfold Response_json, lift. destruct (json response) as [j|e]; [|reflexivity].
  destruct (negb (Response_ok response)); [|reflexivity].
  unfold property, lift. destruct (readProperty j "error"); reflexivity.
Qed.

Theorem fetchTenorApiEndpoint_run resourceName r o w :
  heap w !! r = Some o ->
  fetchTenorApiEndpoint network resourceName r w
  = (extended w [frozenObj (renameInto [] (props o))]
       [Invoked resourceName (props o); Get (endpointUrl resourceName (props o))],
     settle (network (requested (trace w))
                     (endpointUrl resourceName (props o)))).
Proof.
  intros Hr. unfold fetchTenorApiEndpoint.
  unfold bind at 1. rewrite (Object_entries_run _ _ _ Hr).
  unfold bind at 1. unfold record at 1.
  unfold bind at 1. erewrite renameParameters_run by (cbn [with_trace heap]; exact Hr).
  cbn [with_trace with_heap heap instances trace].
  unfold bind at 1. erewrite createUrlParameters_run
    by (cbn [with_heap heap]; apply lookup_last).
  cbn [props]. rewrite fetchTenorApi_run.
  unfold extended, with_heap, with_trace. cbn [heap instances trace].
  rewrite requested_Invoked, <- !app_assoc, app_nil_r. reflexivity.
Qed.

Theorem combineParameters_run w this parameters self fromOptions fromParameters :
  Ready w this parameters self fromOptions fromParameters ->
  combineParameters this parameters w
  = (extended w [frozenObj (combinedFields (key self) fromOptions fromParameters)] [],
     Ok (length (heap w))).
Proof.
  intros [Hthis Hopt Hpar]. unfold combineParameters.
  unfold bind at 1. unfold this_ at 1. rewrite Hthis.
  unfold bind at 1. rewrite (spread_run _ _ _ Hopt).
  unfold bind at 1. rewrite (spread_run _ _ _ Hpar).
  unfold bind at 1. unfold object at 1.
  unfold Object_freeze, bind, deref, with_heap. cbn [heap instances trace].
  rewrite lookup_last. cbn [props heap instances trace]. rewrite insert_last.
  unfold extended, combinedFields, frozenObj. rewrite app_nil_r. reflexivity.
Qed.

End ClientRuns.

(** ** The nine public methods *)

Section Methods.

Variable network : list string -> string -> Result Response.

(** The constructor stores the key and the reference to the options. *)
Lemma constructor_instance key options w :
  instances (fst (constructor key options w)) !! length (instances w)
  = Some {| key := key; options := options |}.
Proof. cbn [constructor fst with_instances instances]. apply list_lookup_middle. reflexivity. Qed.

Lemma Ready_literal w this parameters self fromOptions fromParameters fields :
  Ready w this parameters self fromOptions fromParameters ->
  Ready (extended w [unfrozen fields] []) this (Some (length (heap w)))
        self fromOptions fields.
Proof.
  intros [Hthis Hopt Hpar]. split; cbn [extended heap instances].
  - exact Hthis.
  - apply spreadOf_extended. exact Hopt.
  - simpl. rewrite lookup_last. reflexivity.
Qed.

Lemma plainly_run w this resourceName parameters self fromOptions fromParameters :
  Ready w this parameters self fromOptions fromParameters ->
  let fields := combinedFields (key self) fromOptions fromParameters in
  plainly network this resourceName parameters w
  = (extended w [frozenObj fields; frozenObj (renameInto [] fields)]
       [Invoked resourceName fields; Get (endpointUrl resourceName fields)],
     settle (network (requested (trace w))
                     (endpointUrl resourceName fields))).
Proof.
  intros HR fields. unfold plainly, bind.
  rewrite (combineParameters_run _ _ _ _ _ _ HR). fold fields.
  erewrite fetchTenorApiEndpoint_run by (cbn [extended heap]; apply lookup_last).
  cbn [frozenObj props]. rewrite extended_extended.
  cbn [extended trace]. rewrite app_nil_r. reflexivity.
Qed.

Lemma withLeading_run w this first resourceName parameters self fromOptions
    fromParameters :
  Ready w this parameters self fromOptions fromParameters ->
  let literal := assign [first] fromParameters in
  let fields := combinedFields (key self) fromOptions literal in
  withLeading network this first resourceName parameters w
  = (extended w [unfrozen literal; frozenObj fields; frozenObj (renameInto [] fields)]
       [Invoked resourceName fields; Get (endpointUrl resourceName fields)],
     settle (network (requested (trace w))
                     (endpointUrl resourceName fields))).
Proof.
  intros HR literal fields. unfold withLeading.
  unfold bind at 1. rewrite (spread_run _ _ _ (ready_parameters _ _ _ _ _ _ HR)).
  unfold bind at 1. unfold object at 1. rewrite with_heap_extended.
  match goal with
  | |- _ = ?rhs =>
      change (plainly network this resourceName (Some (length (heap w)))
                (extended w [unfrozen literal] []) = rhs)
  end.
  rewrite (plainly_run _ _ _ _ _ _ _ (Ready_literal _ _ _ _ _ _ literal HR)).
  cbv zeta. rewrite extended_extended. cbn [extended trace app].
  rewrite app_nil_r. reflexivity.
Qed.

Theorem getGifsByCategory_run w this category parameters self fromOptions
    fromParameters :
  Ready w this parameters self fromOptions fromParameters ->
  let fields := combinedFields (key self) fromOptions fromParameters in
  let url := URL (path category ++ "&" ++ queryOf fields) baseUrl in
  getGifsByCategory network this category parameters w
  = (extended w [frozenObj fields; frozenObj (renameInto [] fields)] [Get url],
     settle (network (requested (trace w)) url)).
Proof.
  intros HR fields url. unfold getGifsByCategory.
  unfold bind at 1. rewrite (combineParameters_run _ _ _ _ _ _ HR). fold fields.
  unfold bind at 1. erewrite renameParameters_run
    by (cbn [extended heap]; apply lookup_last).
  rewrite with_heap_extended, extended_extended. cbn [frozenObj props].
  unfold bind at 1. erewrite createUrlParameters_run
    by (cbn [extended heap]; rewrite app_assoc; apply lookup_last).
  cbn [props]. rewrite fetchTenorApi_run, extended_extended.
  cbn [extended trace app]. rewrite app_nil_r. reflexivity.
Qed.

Theorem registerGifShareEvent_run w this id parameters self fromOptions
    fromParameters :
  Ready w this parameters self fromOptions fromParameters ->
  let fields := assign [("id", VString id)] fromParameters in
  registerGifShareEvent network this id parameters w
  = (extended w [unfrozen fields; frozenObj (renameInto [] fields)]
       [Invoked registershare fields; Get (endpointUrl registershare fields)],
     match settle (network (requested (trace w))
                           (endpointUrl registershare fields)) with
     | Ok response => readProperty response "status"
     | Throw e => Throw e
     end).
Proof.
  intros HR fields. unfold registerGifShareEvent.
  unfold bind at 1. rewrite (spread_run _ _ _ (ready_parameters _ _ _ _ _ _ HR)).
  unfold bind at 1. unfold object at 1. rewrite with_heap_extended. fold fields.
  unfold bind. erewrite fetchTenorApiEndpoint_run
    by (cbn [extended heap]; apply lookup_last).
  cbn [unfrozen props]. rewrite extended_extended.
  cbn [extended trace app]. rewrite app_nil_r.
  destruct (settle _); reflexivity.
Qed.

(** The other seven methods are instances of the two shapes. *)

Theorem getSearchTermSuggestions_run w this searchTerm parameters self fromOptions
    fromParameters :
  Ready w this parameters self fromOptions fromParameters ->
  let literal := assign [("searchTerm", VString searchTerm)] fromParameters in
  let fields := combinedFields (key self) fromOptions literal in
  getSearchTermSuggestions network this searchTerm parameters w
  = (extended w [unfrozen literal; frozenObj fields; frozenObj (renameInto [] fields)]
       [Invoked search_suggestions fields; Get (endpointUrl search_suggestions fields)],
     settle (network (requested (trace w))
                     (endpointUrl search_suggestions fields))).
Proof. apply withLeading_run. Qed.

Theorem getSearchTermAutocompletes_run w this searchTerm parameters self fromOptions
    fromParameters :
  Ready w this parameters self fromOptions fromParameters ->
  let literal := assign [("searchTerm", VString searchTerm)] fromParameters in
  let fields := combinedFields (key self) fromOptions literal in
  getSearchTermAutocompletes network this searchTerm parameters w
  = (extended w [unfrozen literal; frozenObj fields; frozenObj (renameInto [] fields)]
       [Invoked autocomplete fields; Get (endpointUrl autocomplete fields)],
     settle (network (requested (trace w))
                     (endpointUrl autocomplete fields))).
Proof. apply withLeading_run. Qed.

Theorem getGifsBySearch_run w this searchTerm parameters self fromOptions
    fromParameters :
  Ready w this parameters self fromOptions fromParameters ->
  let literal := assign [("searchTerm", VString searchTerm)] fromParameters in
  let fields := combinedFields (key self) fromOptions literal in
  getGifsBySearch network this searchTerm parameters w
  = (extended w [unfrozen literal; frozenObj fields; frozenObj (renameInto [] fields)]
       [Invoked search fields; Get (endpointUrl search fields)],
     settle (network (requested (trace w))
                     (endpointUrl search fields))).
Proof. apply withLeading_run. Qed.

Theorem getGifsById_run w this ids parameters self fromOptions fromParameters :
  Ready w this parameters self fromOptions fromParameters ->
  let literal := assign [("ids", VArray ids)] fromParameters in
  let fields := combinedFields (key self) fromOptions literal in
  getGifsById network this ids parameters w
  = (extended w [unfrozen literal; frozenObj fields; frozenObj (renameInto [] fields)]
       [Invoked posts fields; Get (endpointUrl posts fields)],
     settle (network (requested (trace w))
                     (endpointUrl posts fields))).
Proof. apply withLeading_run. Qed.

Theorem getTrendingSearchTerms_run w this parameters self fromOptions fromParameters :
  Ready w this parameters self fromOptions fromParameters ->
  let fields := combinedFields (key self) fromOptions fromParameters in
  getTrendingSearchTerms network this parameters w
  = (extended w [frozenObj fields; frozenObj (renameInto [] fields)]
       [Invoked trending_terms fields; Get (endpointUrl trending_terms fields)],
     settle (network (requested (trace w))
                     (endpointUrl trending_terms fields))).
Proof. apply plainly_run. Qed.

Theorem getFeaturedGifs_run w this parameters self fromOptions fromParameters :
  Ready w this parameters self fromOptions fromParameters ->
  let fields := combinedFields (key self) fromOptions fromParameters in
  getFeaturedGifs network this parameters w
  = (extended w [frozenObj fields; frozenObj (renameInto [] fields)]
       [Invoked featured fields; Get (endpointUrl featured fields)],
     settle (network (requested (trace w))
                     (endpointUrl featured fields))).
Proof. apply plainly_run. Qed.

Theorem getGifCategories_run w this parameters self fromOptions fromParameters :
  Ready w this parameters self fromOptions fromParameters ->
  let fields := combinedFields (key self) fromOptions fromParameters in
  getGifCategories network this parameters w
  = (extended w [frozenObj fields; frozenObj (renameInto [] fields)]
       [Invoked categories fields; Get (endpointUrl categories fields)],
     settle (network (requested (trace w))
                     (endpointUrl categories fields))).
Proof. apply plainly_run. Qed.

(** Every call extends the world by the objects it allocates and the events
    it adds, whatever the transport answers. *)
Theorem perform_world w this call self fromOptions fromParameters :
  Ready w this (parametersOf call) self fromOptions fromParameters ->
  fst (perform network this call w)
  = extended w (allocatedBy self call fromOptions fromParameters)
               (eventsOf self call fromOptions fromParameters).
Proof.
  intros HR. destruct call; cbn [perform parametersOf] in *; unfold bind;
    first
      [ rewrite (getSearchTermSuggestions_run _ _ _ _ _ _ _ HR)
      | rewrite (getSearchTermAutocompletes_run _ _ _ _ _ _ _ HR)
      | rewrite (getTrendingSearchTerms_run _ _ _ _ _ _ HR)
      | rewrite (getGifsBySearch_run _ _ _ _ _ _ _ HR)
      | rewrite (getGifsByCategory_run _ _ _ _ _ _ _ HR)
      | rewrite (getGifsById_run _ _ _ _ _ _ _ HR)
      | rewrite (getFeaturedGifs_run _ _ _ _ _ _ HR)
      | rewrite (getGifCategories_run _ _ _ _ _ _ HR)
      | rewrite (registerGifShareEvent_run _ _ _ _ _ _ _ HR) ];
    cbv zeta; try destruct (settle _); reflexivity.
Qed.

End Methods.

(** * The claims *)

(** ** Frame: nothing a call is given is changed *)

Lemma preserves_extended w fresh events : preserves w (extended w fresh events).
Proof.
  split; [reflexivity|]. intros r o Hr. cbn [extended heap].
  apply lookup_app_l_Some. exact Hr.
Qed.

Lemma returnsFrozenNew_extended w fields events :
  returnsFrozenNew w (extended w [frozenObj fields] events, Ok (length (heap w))).
Proof.
  exists (length (heap w)), (frozenObj fields). cbn [fst snd extended heap].
  repeat split.
  - apply lookup_ge_None. lia.
  - apply lookup_last.
Qed.

(** Frozen means immutable: a write to a frozen object throws and changes
    nothing. *)
Lemma frozen_rejects_writes w r o k v :
  heap w !! r = Some o -> frozen o = true ->
  Object_assign r [(k, v)] w = (w, Throw TypeError).
Proof.
  intros Hr Hfrozen. unfold Object_assign, bind, deref.
  rewrite Hr, Hfrozen. reflexivity.
Qed.

(** C10. No public method changes the client or anything it was given:
    after any of the nine calls, whatever the transport answers, the
    instances (the stored key and the [options] reference) and every object
    allocated before the call (the options object and the call's parameter
    object among them) are as they were.  Likewise [renameParameters] and
    [#combineParameters] leave the instances and all earlier objects
    (their inputs included) unchanged, and each returns a reference to a
    newly allocated object that is frozen. *)
Theorem calls_mutate_nothing :
  forall network w this call self fromOptions fromParameters r o,
    Ready w this (parametersOf call) self fromOptions fromParameters ->
    heap w !! r = Some o ->
    preserves w (fst (perform network this call w)) /\
    (preserves w (fst (renameParameters r w)) /\
     returnsFrozenNew w (renameParameters r w)) /\
    (preserves w (fst (combineParameters this (parametersOf call) w)) /\
     returnsFrozenNew w (combineParameters this (parametersOf call) w)).
Proof.
  intros network w this call self fromOptions fromParameters r o HR Hr.
  split; [|split].
  - rewrite (perform_world network _ _ _ _ _ _ HR). apply preserves_extended.
  - rewrite (renameParameters_run _ _ _ Hr), with_heap_extended.
    split; [apply preserves_extended | apply returnsFrozenNew_extended].
  - rewrite (combineParameters_run _ _ _ _ _ _ HR).
    split; [apply preserves_extended | apply returnsFrozenNew_extended].
Qed.

(** ** The three layers of [#combineParameters] *)

Lemma get_combinedFields k key fromOptions fromParameters :
  List.NoDup (keys fromOptions) -> List.NoDup (keys fromParameters) ->
  JS.get k (combinedFields key fromOptions fromParameters)
  = layered k [[("key", VString key)]; fromOptions; fromParameters].
Proof.
  intros Ho Hp. unfold combinedFields, layered.
  rewrite !get_assign by assumption. cbn [fold_left].
  destruct (JS.get k fromParameters), (JS.get k fromOptions),
    (JS.get k [("key", VString key)]); reflexivity.
Qed.

(** C6. The parameter set of a call is the merge of three layers, the later
    overriding the earlier where they share a field: the access key, the
    client's options, the parameters of the call.  [#combineParameters]
    returns a new object in which every field reads as in the last layer that
    has it (so a field of exactly one layer has that layer's value), and a
    field of no layer is absent. *)
Theorem combineParameters_layers :
  forall w this parameters self fromOptions fromParameters,
    Ready w this parameters self fromOptions fromParameters ->
    List.NoDup (keys fromOptions) ->
    List.NoDup (keys fromParameters) ->
    exists combined o,
      snd (combineParameters this parameters w) = Ok combined /\
      heap (fst (combineParameters this parameters w)) !! combined = Some o /\
      forall k,
        JS.get k (props o)
        = layered k [keyLayer self; fromOptions; fromParameters] /\
        (JS.get k fromParameters = None -> JS.get k fromOptions = None ->
         JS.get k (props o) = JS.get k (keyLayer self)) /\
        (JS.get k fromParameters = None ->
         forall v, JS.get k fromOptions = Some v -> JS.get k (props o) = Some v) /\
        (forall v, JS.get k fromParameters = Some v -> JS.get k (props o) = Some v).
Proof.
  intros w this parameters self fromOptions fromParameters HR Ho Hp.
  rewrite (combineParameters_run _ _ _ _ _ _ HR). cbn [fst snd extended heap].
  eexists _, _. split; [reflexivity|]. split; [apply lookup_last|].
  intros k. cbn [frozenObj props]. rewrite (get_combinedFields _ _ _ _ Ho Hp).
  unfold layered, keyLayer. cbn [fold_left].
  split; [reflexivity|]. split; [|split].
  - intros Hnp Hno. rewrite Hnp, Hno.
    destruct (JS.get k [("key", VString (key self))]); reflexivity.
  - intros Hnp v Hv. rewrite Hnp, Hv. reflexivity.
  - intros v Hv. rewrite Hv. reflexivity.
Qed.

(** ** The two shapes of a response *)

(** C2. For every call through [fetchTenorApi] whose response body decodes:
    if the status is a failure and the body is an error envelope
    [{ error: { code, message } }], the call throws a [GoogleApiError]
    carrying exactly that code and message; if the status is a success, the
    call returns the decoded body unchanged. *)
Theorem fetchTenorApi_discriminates :
  forall network path w response body,
    network (requested (trace w)) (URL path baseUrl) = Ok response ->
    json response = Ok body ->
    (Response_ok response = false ->
     forall members fields code message,
       body = JObject members ->
       member "error" members = Some (JObject fields) ->
       member "code" fields = Some code ->
       member "message" fields = Some message ->
       exists error,
         snd (fetchTenorApi network path w) = Throw (GoogleApiError error) /\
         error = Some (JObject fields) /\
         GoogleApiError_code error = Some code /\
         GoogleApiError_message error = Some message) /\
    (Response_ok response = true ->
     snd (fetchTenorApi network path w) = Ok body).
Proof.
  intros network path w response body Hnet Hjson.
  rewrite fetchTenorApi_run. cbn [snd]. rewrite Hnet. unfold settle.
  rewrite Hjson. split.
  - intros Hok members fields code message -> Herror Hcode Hmessage.
    rewrite Hok. cbn [negb readProperty]. rewrite Herror.
    eexists. split; [reflexivity|]. split; [reflexivity|].
    cbn [GoogleApiError_code GoogleApiError_message]. split; assumption.
  - intros Hok. rewrite Hok. reflexivity.
Qed.

(** ** Share registration *)

(** C7. [registerGifShareEvent] returns the value of the [status] field of
    the response envelope, not the envelope: when the transport answers the
    request with a success status and a body that decodes to an object, the
    result is that object's [status]; for an envelope whose [status] is the
    boolean [b], such as [{"status": true}], it is the boolean [b]. *)
Theorem registerGifShareEvent_unwraps_status :
  forall network w this id parameters self fromOptions fromParameters
         response members,
    Ready w this parameters self fromOptions fromParameters ->
    let fields := assign [("id", VString id)] fromParameters in
    network (requested (trace w))
            (endpointUrl registershare fields) = Ok response ->
    Response_ok response = true ->
    json response = Ok (JObject members) ->
    snd (registerGifShareEvent network this id parameters w)
    = Ok (member "status" members) /\
    (forall b, member "status" members = Some (JBoolean b) ->
       snd (registerGifShareEvent network this id parameters w)
       = Ok (Some (JBoolean b))).
Proof.
  intros network w this id parameters self fromOptions fromParameters
         response members HR fields Hnet Hok Hjson.
  rewrite (registerGifShareEvent_run _ _ _ _ _ _ _ _ HR). cbn [snd].
  fold fields. rewrite Hnet. unfold settle. rewrite Hjson, Hok.
  cbn [negb readProperty]. split; [reflexivity|].
  intros b ->. reflexivity.
Qed.

(** ** The normalizer *)

(** C4. For every parameter object (an [EndpointParameters]: distinct names,
    each a field of the interface), [renameParameters] returns a new object
    in which each property named in the rename table (aspectRatioRange to
    ar_range, clientKey to client_key, contentFilter to contentfilter,
    contentFormats to media_filter, positionId to pos, isRandomOrder to
    random, searchFilter to searchfilter, searchTerm to q) appears under its
    wire name with its original value, no name of the table is a property of
    the result, every other property is copied with its value, and nothing
    else is in the result. *)
Theorem renameParameters_renames :
  forall w parameters o,
    heap w !! parameters = Some o ->
    isEndpointParameters (props o) ->
    exists renamed o',
      snd (renameParameters parameters w) = Ok renamed /\
      renamed <> parameters /\
      heap (fst (renameParameters parameters w)) !! renamed = Some o' /\
      map newNameOf
        [ "aspectRatioRange"; "clientKey"; "contentFilter"; "contentFormats";
          "positionId"; "isRandomOrder"; "searchFilter"; "searchTerm" ]
      = [ "ar_range"; "client_key"; "contentfilter"; "media_filter";
          "pos"; "random"; "searchfilter"; "q" ] /\
      (forall k v newName,
         In (k, v) (props o) ->
         lookupName newParameterNames k = Some newName ->
         JS.get newName (props o') = Some v) /\
      (forall k newName,
         lookupName newParameterNames k = Some newName ->
         JS.get k (props o') = None) /\
      (forall k v,
         In (k, v) (props o) ->
         lookupName newParameterNames k = None ->
         JS.get k (props o') = Some v) /\
      (forall k' v,
         JS.get k' (props o') = Some v ->
         exists k, In (k, v) (props o) /\ newNameOf k = k').
Proof.
  intros w parameters o Hr Htyped.
  rewrite (renameParameters_run _ _ _ Hr). cbn [fst snd with_heap heap].
  exists (length (heap w)), (frozenObj (renameInto [] (props o))).
  assert (Hnd : List.NoDup (keys (map renameEntry (props o)))).
  { rewrite keys_map_renameEntry. apply NoDup_newNames. exact Htyped. }
  assert (Hwritten : forall k v, In (k, v) (props o) ->
            JS.get (newNameOf k) (map renameEntry (props o)) = Some v).
  { intros k v Hin. apply get_of_In; [exact Hnd|].
    apply (List.in_map renameEntry) in Hin. exact Hin. }
  split; [reflexivity|]. split.
  { intros E. apply lookup_lt_Some in Hr. lia. }
  split; [apply lookup_last|]. split; [reflexivity|].
  cbn [frozenObj props]. split; [|split; [|split]].
  - intros k v newName Hin Hk. rewrite renameInto_EndpointParameters by exact Htyped.
    rewrite <- (Hwritten k v Hin). unfold newNameOf. rewrite Hk. reflexivity.
  - intros k newName Hk. apply get_None_iff.
    rewrite renameInto_EndpointParameters by exact Htyped.
    rewrite keys_map_renameEntry. intros Hin.
    apply List.in_map_iff in Hin. destruct Hin as (k0 & E & _).
    exact (newNameOf_not_renamed k0 k newName Hk E).
  - intros k v Hin Hk. rewrite renameInto_EndpointParameters by exact Htyped.
    rewrite <- (Hwritten k v Hin). unfold newNameOf. rewrite Hk. reflexivity.
  - intros k' v Hget. apply renameInto_origin in Hget.
    destruct Hget as [Hget|Hget]; [discriminate | exact Hget].
Qed.

(** Outside the type, two properties can be sent under one name: the later
    one wins. *)
Remark renameParameters_clash :
  let w := {| heap := [unfrozen [("q", VString "a"); ("searchTerm", VString "b")]];
              instances := []; trace := [] |} in
  heap (fst (renameParameters 0%nat w)) !! 1%nat
  = Some (frozenObj [("q", VString "b")]).
Proof. reflexivity. Qed.

(** ** The query builder *)

Lemma retained_falsy v : ToBoolean v = false -> retained v = false.
Proof. intros H. unfold retained. rewrite H. reflexivity. Qed.

Lemma retained_scalar v :
  ToBoolean v = true -> Array_isArray v = false -> retained v = true.
Proof. intros H H'. unfold retained. rewrite H, H'. reflexivity. Qed.

Lemma omits_of_unretained ps k v :
  List.NoDup (keys ps) -> In (k, v) ps -> retained v = false ->
  omits (URLSearchParams.toString (flat_map parameterOf ps)) k.
Proof.
  intros Hnd Hin Hret. unfold omits.
  rewrite URLSearchParamsFacts.parse_toString, (getAll_of_entry _ _ _ Hnd Hin).
  unfold parameterOf. cbn [snd]. rewrite Hret. reflexivity.
Qed.

Lemma carriesOnce_of_retained ps k v :
  List.NoDup (keys ps) -> In (k, v) ps -> retained v = true ->
  carriesOnce (URLSearchParams.toString (flat_map parameterOf ps)) k (JS.toString v).
Proof.
  intros Hnd Hin Hret. unfold carriesOnce. split.
  - rewrite URLSearchParamsFacts.parse_toString, (getAll_of_entry _ _ _ Hnd Hin).
    unfold parameterOf. cbn [snd]. rewrite Hret. reflexivity.
  - apply (piece_of_pair _ (k, JS.toString v)).
    apply In_parameterOf; assumption.
Qed.

(** C3. For every object with distinct property names, the query string
    that [createUrlParameters] builds (a) has no parameter for a property
    that is absent or whose value is falsy ([undefined], the empty string,
    0, [NaN], [false]); (b) has no parameter for a property whose value is an empty
    array; (c) has exactly one parameter for a property whose value is a
    non-empty array, its value the elements joined by commas; (d) has exactly
    one parameter for every other property, its value the string form of the
    property's value (what [toString()] gives: the string itself, [true], the
    number as JavaScript prints it); and each parameter is written as the urlencoded name,
    [=], and the urlencoded value. *)
Theorem createUrlParameters_serializes :
  forall w parameters o,
    heap w !! parameters = Some o ->
    List.NoDup (keys (props o)) ->
    exists urlParameters,
      createUrlParameters parameters w = (w, Ok urlParameters) /\
      let query := URLSearchParams.toString urlParameters in
      (forall k, ~ In k (keys (props o)) -> omits query k) /\
      (forall k v, In (k, v) (props o) -> ToBoolean v = false -> omits query k) /\
      (forall k, In (k, VArray []) (props o) -> omits query k) /\
      (forall k element elements,
         In (k, VArray (element :: elements)) (props o) ->
         carriesOnce query k (Array_join "," (element :: elements))) /\
      (forall k v,
         In (k, v) (props o) -> ToBoolean v = true -> Array_isArray v = false ->
         carriesOnce query k (JS.toString v)).
Proof.
  intros w parameters o Hr Hnd.
  exists (flat_map parameterOf (props o)).
  split; [apply createUrlParameters_run; exact Hr|]. cbv zeta.
  split; [|split; [|split; [|split]]].
  - intros k Hk. unfold omits.
    rewrite URLSearchParamsFacts.parse_toString. apply getAll_absent. exact Hk.
  - intros k v Hin Hv. apply (omits_of_unretained _ _ v); auto using retained_falsy.
  - intros k Hin. apply (omits_of_unretained _ _ (VArray [])); auto.
  - intros k element elements Hin.
    apply (carriesOnce_of_retained _ _ (VArray (element :: elements))); auto.
  - intros k v Hin Hv Harr.
    apply carriesOnce_of_retained; auto using retained_scalar.
Qed.

(** C8, as the code has it.  Round trip: for every object with distinct
    property names, parsing the query string that [createUrlParameters] builds
    gives back the parameters it was built from.  What it recovers under the
    name of a non-empty scalar value (a truthy value that is not an array) is
    a string, the string form of the value: that is the value itself exactly
    when the value is a string; a number or [true] comes back as the string
    that prints it. *)
Theorem query_round_trip :
  forall w parameters o,
    heap w !! parameters = Some o ->
    List.NoDup (keys (props o)) ->
    exists urlParameters,
      createUrlParameters parameters w = (w, Ok urlParameters) /\
      let parsed := URLSearchParams.parse (URLSearchParams.toString urlParameters) in
      parsed = urlParameters /\
      (forall k v,
         In (k, v) (props o) -> ToBoolean v = true -> Array_isArray v = false ->
         recovered parsed k = Some (VString (JS.toString v)) /\
         (recovered parsed k = Some v <-> exists s, v = VString s)) /\
      (forall k s,
         In (k, VString s) (props o) -> s <> "" ->
         recovered parsed k = Some (VString s)).
Proof.
  intros w parameters o Hr Hnd.
  exists (flat_map parameterOf (props o)).
  split; [apply createUrlParameters_run; exact Hr|]. cbv zeta.
  rewrite URLSearchParamsFacts.parse_toString. split; [reflexivity|].
  assert (Hscalar : forall k v, In (k, v) (props o) -> ToBoolean v = true ->
            Array_isArray v = false ->
            recovered (flat_map parameterOf (props o)) k
            = Some (VString (JS.toString v))).
  { intros k v Hin Hv Harr. unfold recovered.
    rewrite get_hd_getAll, (getAll_of_entry _ _ _ Hnd Hin).
    unfold parameterOf. cbn [snd fst]. rewrite (retained_scalar _ Hv Harr).
    reflexivity. }
  split.
  - intros k v Hin Hv Harr. split; [exact (Hscalar k v Hin Hv Harr)|].
    rewrite (Hscalar k v Hin Hv Harr). split.
    + intros H. inversion H as [Hv']. exists (JS.toString v). reflexivity.
    + intros [s Hs]. subst v. reflexivity.
  - intros k s Hin Hs. apply (Hscalar k (VString s) Hin); [|reflexivity].
    cbn [ToBoolean]. rewrite (eqb_false_of_ne _ _ Hs). reflexivity.
Qed.

(** ** Determinism of the pipeline *)

Lemma queryString_run w r o :
  heap w !! r = Some o ->
  queryString r w
  = (extended w [frozenObj (renameInto [] (props o))] [], Ok (queryOf (props o))).
Proof.
  intros Hr. unfold queryString.
  unfold bind at 1. rewrite (renameParameters_run _ _ _ Hr), with_heap_extended.
  unfold bind. erewrite createUrlParameters_run
    by (cbn [extended heap]; apply lookup_last).
  reflexivity.
Qed.

Lemma isEndpointParameters_Permutation ps ps' :
  Permutation ps ps' -> isEndpointParameters ps -> isEndpointParameters ps'.
Proof.
  intros Hperm [Hnd Hall].
  assert (Hkeys : Permutation (keys ps) (keys ps')) by (apply Permutation_map; exact Hperm).
  split.
  - exact (Permutation_NoDup Hkeys Hnd).
  - rewrite List.Forall_forall in *. intros k Hk. apply Hall.
    apply (Permutation_in _ (Permutation_sym Hkeys)). exact Hk.
Qed.

Lemma pieces_Permutation (params params' : URLSearchParams.t) :
  Permutation params params' ->
  Permutation (URLSearchParams.split "&" (URLSearchParams.toString params))
              (URLSearchParams.split "&" (URLSearchParams.toString params')).
Proof.
  intros Hperm. destruct params as [|p params].
  - apply Permutation_nil in Hperm. subst params'. reflexivity.
  - destruct params' as [|p' params'].
    + apply Permutation_sym, Permutation_nil in Hperm. discriminate.
    + rewrite !URLSearchParamsFacts.split_toString.
      apply Permutation_map. exact Hperm.
Qed.

(** C9. Determinism: the query string of the normalize-then-serialize
    pipeline depends on the fields of its input object and on nothing else.
    Run in any two worlds on objects with the same fields, it gives the same
    string, byte for byte; run on two [EndpointParameters] objects with the
    same fields in a different order, it gives query strings with the same
    parameters in a different order. *)
Theorem pipeline_deterministic :
  forall w1 w2 parameters1 parameters2 o1 o2,
    heap w1 !! parameters1 = Some o1 ->
    heap w2 !! parameters2 = Some o2 ->
    exists query1 query2,
      snd (queryString parameters1 w1) = Ok query1 /\
      snd (queryString parameters2 w2) = Ok query2 /\
      (props o1 = props o2 -> query1 = query2) /\
      (isEndpointParameters (props o1) ->
       Permutation (props o1) (props o2) ->
       Permutation (URLSearchParams.split "&" query1)
                   (URLSearchParams.split "&" query2)).
Proof.
  intros w1 w2 parameters1 parameters2 o1 o2 H1 H2.
  exists (queryOf (props o1)), (queryOf (props o2)).
  rewrite (queryString_run _ _ _ H1), (queryString_run _ _ _ H2).
  split; [reflexivity|]. split; [reflexivity|]. split.
  - intros E. rewrite E. reflexivity.
  - intros Htyped Hperm. unfold queryOf.
    rewrite !renameInto_EndpointParameters;
      [| exact (isEndpointParameters_Permutation _ _ Hperm Htyped) | exact Htyped].
    apply pieces_Permutation, Permutation_flat_map, Permutation_map. exact Hperm.
Qed.

(** ** Search by category *)

Lemma encode_no_question s : contains "?" (URLSearchParams.encode s) = false.
Proof.
  induction s as [|b s IH]; simpl; [reflexivity|].
  rewrite URLSearchParamsFacts.contains_append, IH, orb_false_r.
  destruct b as [[] [] [] [] [] [] [] []]; reflexivity.
Qed.

(** A serialized query has no [?] of its own. *)
Lemma toString_no_question params :
  contains "?" (URLSearchParams.toString params) = false.
Proof.
  unfold URLSearchParams.toString.
  induction params as [|p params IH]; [reflexivity|].
  assert (Hp : contains "?" (URLSearchParams.encodePair p) = false).
  { unfold URLSearchParams.encodePair.
    rewrite !URLSearchParamsFacts.contains_append, !encode_no_question. reflexivity. }
  destruct params as [|q params]; [exact Hp|].
  change (String.concat "&" (map URLSearchParams.encodePair (p :: q :: params)))
    with (URLSearchParams.encodePair p ++
          String "&" (String.concat "&" (map URLSearchParams.encodePair (q :: params)))).
  rewrite URLSearchParamsFacts.contains_append, Hp. simpl. exact IH.
Qed.

Lemma queryOf_key_limit k :
  queryOf (combinedFields k [] [("limit", VNumber eight)])
  = if String.eqb k "" then "limit=8"
    else "key=" ++ URLSearchParams.encode k ++ "&limit=8".
Proof. destruct k as [|c rest]; reflexivity. Qed.

(** Every byte of a urlencoded string is one the URL parser keeps in a
    query. *)
Lemma plainQuery_append s s' :
  plainQuery (s ++ s') = plainQuery s && plainQuery s'.
Proof.
  induction s as [|c s IH]; simpl; [reflexivity|].
  rewrite IH, andb_assoc. reflexivity.
Qed.

Lemma plainQuery_encode s : plainQuery (URLSearchParams.encode s) = true.
Proof.
  induction s as [|b s IH]; simpl; [reflexivity|].
  rewrite plainQuery_append, IH, andb_true_r.
  destruct b as [[] [] [] [] [] [] [] []]; reflexivity.
Qed.

Lemma plainQuery_toString params :
  plainQuery (URLSearchParams.toString params) = true.
Proof.
  unfold URLSearchParams.toString.
  induction params as [|p params IH]; [reflexivity|].
  assert (Hp : plainQuery (URLSearchParams.encodePair p) = true).
  { unfold URLSearchParams.encodePair.
    rewrite !plainQuery_append, !plainQuery_encode. reflexivity. }
  destruct params as [|q params]; [exact Hp|].
  change (String.concat "&" (map URLSearchParams.encodePair (p :: q :: params)))
    with (URLSearchParams.encodePair p ++
          String "&" (String.concat "&" (map URLSearchParams.encodePair (q :: params)))).
  rewrite plainQuery_append, Hp. simpl. exact IH.
Qed.

Lemma plainQuery_appended params :
  plainQuery ("&" ++ URLSearchParams.toString params) = true.
Proof.
  change (plainQueryChar "&" && plainQuery (URLSearchParams.toString params) = true).
  rewrite plainQuery_toString. reflexivity.
Qed.

Lemma plainPathAndQuery_append s s' :
  plainPathAndQuery s = true -> plainQuery s' = true ->
  plainPathAndQuery (s ++ s') = true.
Proof.
  intros Hs Hs'. induction s as [|c s IH]; simpl in *; [discriminate|].
  destruct (Ascii.eqb c "?").
  - rewrite plainQuery_append, Hs, Hs'. reflexivity.
  - apply andb_prop in Hs. destruct Hs as [Hc Hs].
    rewrite Hc, (IH Hs). reflexivity.
Qed.

(** A plain reference followed by a plain query is a plain reference. *)
Lemma plainReference_append s s' :
  plainReference s = true -> plainQuery s' = true ->
  plainReference (s ++ s') = true.
Proof.
  unfold plainReference. intros Hs Hs'.
  apply andb_prop in Hs. destruct Hs as [Hslashes Hs].
  rewrite (plainPathAndQuery_append _ _ Hs Hs'), andb_true_r.
  destruct s as [|c [|c' s]]; [discriminate| |exact Hslashes].
  simpl in Hs. destruct (Ascii.eqb c "?") eqn:Hc.
  - apply Ascii.eqb_eq in Hc. subst c. destruct s'; reflexivity.
  - rewrite andb_false_r in Hs. discriminate.
Qed.

(** What a category's path and the appended query resolve to. *)
Lemma URL_appended reference query :
  URL (reference ++ "&" ++ query) baseUrl
  = resolutionBase reference ++ reference ++ "&" ++ query.
Proof.
  unfold URL, resolutionBase. destruct reference as [|c reference]; [reflexivity|].
  cbn [String.append startsWithSlash]. destruct (Ascii.eqb c "/"); reflexivity.
Qed.

(** What a resource name and its query resolve to. *)
Lemma URL_endpoint resourceName query :
  URL (ResourceName_toString resourceName ++ "?" ++ query) baseUrl
  = baseUrl ++ ResourceName_toString resourceName ++ "?" ++ query.
Proof. destruct resourceName; reflexivity. Qed.

Lemma plainReference_endpoint resourceName params :
  plainReference (ResourceName_toString resourceName ++ "?" ++
                  URLSearchParams.toString params) = true.
Proof.
  pose proof (plainQuery_toString params) as H.
  destruct resourceName; simpl; exact H.
Qed.

(** The URL of a call: its reference, put after what it is resolved
    against. *)
Lemma requestUrl_split self call fromOptions fromParameters :
  requestUrl self call fromOptions fromParameters
  = referenceBase call ++ urlPrefix call ++
    queryOf (handedFields self call fromOptions fromParameters).
Proof.
  destruct call; unfold requestUrl, urlPrefix, endpointUrl, referenceBase;
    cbn [resourceOf];
    rewrite ?URL_endpoint, ?URL_appended, ?URLSearchParamsFacts.append_assoc;
    reflexivity.
Qed.

(** The reference of a call is a plain one when the part its caller gives
    is. *)
Lemma plainReference_call self call fromOptions fromParameters :
  wellReferenced call ->
  plainReference (urlPrefix call ++
                  queryOf (handedFields self call fromOptions fromParameters)) = true.
Proof.
  intros Hplain.
  destruct call; unfold urlPrefix; cbn [resourceOf];
    try (rewrite URLSearchParamsFacts.append_assoc; apply plainReference_endpoint).
  rewrite URLSearchParamsFacts.append_assoc.
  apply plainReference_append; [exact Hplain|].
  apply plainQuery_appended.
Qed.

(** C5, as the code has it.  For every category whose path is a plain
    reference (a path and a query the URL parser leaves as they are), and
    options and parameters of the call of the type [EndpointParameters],
    [getGifsByCategory] requests the category's
    path followed by [&] and the query string of the combined parameters (the
    access key, the client's options and the call's parameters, renamed and
    serialized); that reference is again a plain one, it is resolved against
    the base (against its origin when the path has a leading slash), and the
    appended query has no [?].  With the path [search?q=excited] or
    [/v2/search?q=excited], parameters [{limit: 8}] and a client without
    options, the URL is the base followed by [search?q=excited&key=K&limit=8]
    for a non-empty key [K] (urlencoded), and by [search?q=excited&limit=8]
    only for the empty key. *)
Theorem getGifsByCategory_appends_query :
  forall network w this category parameters self fromOptions fromParameters,
    Ready w this parameters self fromOptions fromParameters ->
    plainReference (path category) = true ->
    isEndpointParameters fromOptions ->
    isEndpointParameters fromParameters ->
    let fields := combinedFields (key self) fromOptions fromParameters in
    let w' := fst (getGifsByCategory network this category parameters w) in
    let reference := path category ++ "&" ++ queryOf fields in
    plainReference reference = true /\
    trace w' = (trace w ++ [Get (resolutionBase (path category) ++ reference)])%list /\
    contains "?" (queryOf fields) = false /\
    (path category = "search?q=excited" \/ path category = "/v2/search?q=excited" ->
     fromOptions = [] ->
     fromParameters = [("limit", VNumber eight)] ->
     trace w' =
       (trace w ++
        [Get (baseUrl ++ "search?q=excited&" ++
              (if String.eqb (key self) "" then "limit=8"
               else "key=" ++ URLSearchParams.encode (key self) ++ "&limit=8"))])%list).
Proof.
  intros network w this category parameters self fromOptions fromParameters HR
         Hplain _ _ fields w' reference.
  assert (Htrace : trace w' =
            (trace w ++ [Get (resolutionBase (path category) ++ reference)])%list).
  { unfold w', reference.
    rewrite (getGifsByCategory_run _ _ _ _ _ _ _ _ HR), <- URL_appended.
    reflexivity. }
  split.
  { unfold reference. apply plainReference_append; [exact Hplain|].
    apply plainQuery_appended. }
  split; [exact Htrace|]. split; [apply toString_no_question|].
  intros Hpath Ho Hp. rewrite Htrace. unfold reference, fields.
  rewrite Ho, Hp, queryOf_key_limit.
  destruct Hpath as [Hpath|Hpath]; rewrite Hpath; reflexivity.
Qed.

(** ** What each method hands to the invoker *)

Theorem perform_trace network w this call self fromOptions fromParameters :
  Ready w this (parametersOf call) self fromOptions fromParameters ->
  trace (fst (perform network this call w))
  = (trace w ++ eventsOf self call fromOptions fromParameters)%list.
Proof. intros HR. rewrite (perform_world network _ _ _ _ _ _ HR). reflexivity. Qed.

(** X1. Each of the eight methods that combine hands the invoker the fields
    of the call merged into the client's configuration: the access key
    (unless the options or the call carry a key of their own), every option
    the call does not override, and every field the call supplies.  With
    [EndpointParameters] inputs, the seven that go through
    [fetchTenorApiEndpoint] enter it with these fields and then make their
    request, and [getGifsByCategory], for a category whose path is a plain
    reference, requests that path followed by [&] and the query string of
    these fields. *)
Theorem combining_calls_hand_over_configuration :
  forall network w this call self fromOptions fromParameters,
    Ready w this (parametersOf call) self fromOptions fromParameters ->
    wellReferenced call ->
    List.NoDup (keys fromOptions) ->
    List.NoDup (keys (suppliedFields call fromParameters)) ->
    combines call = true ->
    let fields := handedFields self call fromOptions fromParameters in
    let supplied := suppliedFields call fromParameters in
    (isEndpointParameters fromOptions ->
     isEndpointParameters supplied ->
     match call with
     | GifsByCategory category _ =>
         trace (fst (perform network this call w))
         = (trace w ++
            [Get (resolutionBase (path category) ++ path category ++ "&" ++
                  queryOf fields)])%list
     | _ =>
         exists resourceName url,
           resourceOf call = Some resourceName /\
           trace (fst (perform network this call w))
           = (trace w ++ [Invoked resourceName fields; Get url])%list
     end) /\
    (JS.get "key" fromOptions = None -> JS.get "key" supplied = None ->
     JS.get "key" fields = Some (VString (key self))) /\
    (forall k v, JS.get k fromOptions = Some v -> JS.get k supplied = None ->
                 JS.get k fields = Some v) /\
    (forall k v, JS.get k supplied = Some v -> JS.get k fields = Some v).
Proof.
  intros network w this call self fromOptions fromParameters HR _ Ho Hs Hc
         fields supplied.
  split.
  { intros _ _. rewrite (perform_trace network _ _ _ _ _ _ HR). fold fields.
    destruct call; try discriminate;
      try (eexists _, _; split; reflexivity).
    cbn [eventsOf resourceOf]. rewrite URL_appended. reflexivity. }
  unfold fields, handedFields. rewrite Hc.
  split; [|split].
  - intros Hko Hks. rewrite get_combinedFields by assumption.
    unfold layered. cbn [fold_left]. fold supplied. rewrite Hko, Hks. reflexivity.
  - intros k v Hko Hks. rewrite get_combinedFields by assumption.
    unfold layered. cbn [fold_left]. fold supplied. rewrite Hko, Hks. reflexivity.
  - intros k v Hks. rewrite get_combinedFields by assumption.
    unfold layered. cbn [fold_left]. fold supplied. rewrite Hks. reflexivity.
Qed.

(** C1, at a failing input.  On a client built with the key [KEY] and the
    options [{clientKey: "my_test_app"}], [registerGifShareEvent] hands the
    invoker only the caller's fields: neither the key nor the client key is
    among them, and none reaches the request.  [getGifsBySearch] on the same
    client hands on the key and the client key. *)
Theorem registerGifShareEvent_omits_configuration :
  forall network,
    trace (fst (registerGifShareEvent network 0%nat "16989471141791455574"
                  (Some 2%nat) exampleWorld))
    = [ Invoked registershare
          [("id", VString "16989471141791455574");
           ("searchTerm", VString "excited")];
        Get "https://tenor.googleapis.com/v2/registershare?id=16989471141791455574&q=excited" ] /\
    trace (fst (getGifsBySearch network 0%nat "excited" None exampleWorld))
    = [ Invoked search
          [("key", VString "KEY"); ("clientKey", VString "my_test_app");
           ("searchTerm", VString "excited")];
        Get "https://tenor.googleapis.com/v2/search?key=KEY&client_key=my_test_app&q=excited" ].
Proof.
  intros network. split.
  - rewrite (registerGifShareEvent_run network exampleWorld 0%nat
               "16989471141791455574" (Some 2%nat) exampleClient
               [("clientKey", VString "my_test_app")]
               [("searchTerm", VString "excited")] ltac:(ready)).
    reflexivity.
  - rewrite (getGifsBySearch_run network exampleWorld 0%nat "excited" None
               exampleClient [("clientKey", VString "my_test_app")] []
               ltac:(ready)).
    reflexivity.
Qed.

(** C5, as stated, fails: with the key [KEY], the path [search?q=excited]
    and the parameters [{limit: 8}], the request URL carries the key between
    the path and the limit, and does not end in [search?q=excited&limit=8]. *)
Lemma getGifsByCategory_url_has_key :
  trace (fst (getGifsByCategory (respond 200 emptyResults) 1%nat excited
                (Some 1%nat) exampleWorld))
  = [Get "https://tenor.googleapis.com/v2/search?q=excited&key=KEY&limit=8"] /\
  endsWith "https://tenor.googleapis.com/v2/search?q=excited&key=KEY&limit=8"
           "search?q=excited&limit=8" = false.
Proof. split; vm_compute; reflexivity. Qed.

(** ** The theorems at concrete inputs *)

Lemma calls_mutate_nothing_witness :
  let w := exampleWorld in
  let call := GifsBySearch "excited" (Some 1%nat) in
  preserves w (fst (perform (respond 200 emptyResults) 0%nat call w)) /\
  (preserves w (fst (renameParameters 4%nat w)) /\
   returnsFrozenNew w (renameParameters 4%nat w)) /\
  (preserves w (fst (combineParameters 0%nat (parametersOf call) w)) /\
   returnsFrozenNew w (combineParameters 0%nat (parametersOf call) w)).
Proof.
  exact (calls_mutate_nothing (respond 200 emptyResults) exampleWorld 0%nat
           (GifsBySearch "excited" (Some 1%nat)) exampleClient
           [("clientKey", VString "my_test_app")] [("limit", VNumber eight)]
           4%nat
           (unfrozen [("searchTerm", VString "excited"); ("limit", VNumber eight);
                      ("contentFormats", VArray ["gif"])])
           ltac:(ready) eq_refl).
Defined.

Lemma combineParameters_layers_witness :
  exists combined o,
    snd (combineParameters 0%nat (Some 1%nat) exampleWorld) = Ok combined /\
    heap (fst (combineParameters 0%nat (Some 1%nat) exampleWorld)) !! combined = Some o /\
    forall k,
      JS.get k (props o)
      = layered k [keyLayer exampleClient; [("clientKey", VString "my_test_app")];
                   [("limit", VNumber eight)]] /\
      (JS.get k [("limit", VNumber eight)] = None ->
       JS.get k [("clientKey", VString "my_test_app")] = None ->
       JS.get k (props o) = JS.get k (keyLayer exampleClient)) /\
      (JS.get k [("limit", VNumber eight)] = None ->
       forall v, JS.get k [("clientKey", VString "my_test_app")] = Some v ->
                 JS.get k (props o) = Some v) /\
      (forall v, JS.get k [("limit", VNumber eight)] = Some v ->
                 JS.get k (props o) = Some v).
Proof.
  apply (combineParameters_layers exampleWorld 0%nat (Some 1%nat) exampleClient
           [("clientKey", VString "my_test_app")] [("limit", VNumber eight)]).
  - ready.
  - distinct_names.
  - distinct_names.
Defined.

Lemma fetchTenorApi_discriminates_witness :
  (exists error,
     snd (fetchTenorApi (respond 400 badRequest) "search?q=excited" exampleWorld)
     = Throw (GoogleApiError error) /\
     error = Some (JObject [("code", JString "BAD_REQUEST"); ("message", JString "x")]) /\
     GoogleApiError_code error = Some (JString "BAD_REQUEST") /\
     GoogleApiError_message error = Some (JString "x")) /\
  snd (fetchTenorApi (respond 200 emptyResults) "search?q=excited" exampleWorld)
  = Ok emptyResults.
Proof.
  split.
  - apply (proj1 (fetchTenorApi_discriminates (respond 400 badRequest)
                    "search?q=excited" exampleWorld
                    {| status := 400; json := Ok badRequest |} badRequest
                    eq_refl eq_refl)
             eq_refl
             [("error", JObject [("code", JString "BAD_REQUEST");
                                 ("message", JString "x")])]
             [("code", JString "BAD_REQUEST"); ("message", JString "x")]
             (JString "BAD_REQUEST") (JString "x")
             eq_refl eq_refl eq_refl eq_refl).
  - apply (proj2 (fetchTenorApi_discriminates (respond 200 emptyResults)
                    "search?q=excited" exampleWorld
                    {| status := 200; json := Ok emptyResults |} emptyResults
                    eq_refl eq_refl)
             eq_refl).
Defined.

Lemma registerGifShareEvent_unwraps_status_witness :
  let network := respond 200 (JObject [("status", JBoolean true)]) in
  snd (registerGifShareEvent network 0%nat "16989471141791455574" (Some 2%nat)
         exampleWorld)
  = Ok (Some (JBoolean true)).
Proof.
  intros network.
  apply (proj2 (registerGifShareEvent_unwraps_status network exampleWorld 0%nat
                  "16989471141791455574" (Some 2%nat) exampleClient
                  [("clientKey", VString "my_test_app")]
                  [("searchTerm", VString "excited")]
                  {| status := 200; json := Ok (JObject [("status", JBoolean true)]) |}
                  [("status", JBoolean true)]
                  ltac:(ready) eq_refl eq_refl eq_refl)
           true eq_refl).
Defined.

Lemma exampleParameters_typed :
  isEndpointParameters
    [("searchTerm", VString "excited"); ("limit", VNumber eight);
     ("contentFormats", VArray ["gif"])].
Proof.
  split; [distinct_names|].
  repeat constructor; simpl; tauto.
Qed.

Lemma renameParameters_renames_witness :
  exists renamed o',
    snd (renameParameters 4%nat exampleWorld) = Ok renamed /\
    renamed <> 4%nat /\
    heap (fst (renameParameters 4%nat exampleWorld)) !! renamed = Some o' /\
    JS.get "q" (props o') = Some (VString "excited") /\
    JS.get "searchTerm" (props o') = None /\
    JS.get "limit" (props o') = Some (VNumber eight) /\
    JS.get "media_filter" (props o') = Some (VArray ["gif"]).
Proof.
  destruct (renameParameters_renames exampleWorld 4%nat
              (unfrozen [("searchTerm", VString "excited"); ("limit", VNumber eight);
                         ("contentFormats", VArray ["gif"])])
              eq_refl exampleParameters_typed)
    as (renamed & o' & Hrun & Hnew & Hheap & _ & Hrenamed & Habsent & Hcopied & _).
  exists renamed, o'. repeat split; try assumption.
  - apply (Hrenamed "searchTerm" _ "q"); [simpl; tauto | reflexivity].
  - apply (Habsent "searchTerm" "q"). reflexivity.
  - apply (Hcopied "limit"); [simpl; tauto | reflexivity].
  - apply (Hrenamed "contentFormats" _ "media_filter"); [simpl; tauto | reflexivity].
Defined.

Lemma mixedParameters_distinct :
  List.NoDup (keys
    [("q", VString "so excited"); ("limit", VNumber fifty);
     ("random", VBoolean true); ("pos", VNumber sextillion);
     ("ar_range", VNumber half); ("country", VNumber zero);
     ("locale", VNumber NaN); ("searchfilter", VBoolean false);
     ("media_filter", VArray ["gif"; "mp4"]);
     ("ids", VArray []); ("type", VUndefined);
     ("client_key", VString ""); ("key", VString "a&b=c")]).
Proof. distinct_names. Qed.

Lemma createUrlParameters_serializes_witness :
  exists urlParameters,
    createUrlParameters 0%nat mixedWorld = (mixedWorld, Ok urlParameters) /\
    let query := URLSearchParams.toString urlParameters in
    query = "q=so+excited&limit=50&random=true&pos=1e%2B21&ar_range=0.5&media_filter=gif%2Cmp4&key=a%26b%3Dc" /\
    omits query "contentfilter" /\ omits query "country" /\ omits query "locale" /\
    omits query "searchfilter" /\ omits query "type" /\ omits query "client_key" /\
    omits query "ids" /\
    carriesOnce query "media_filter" "gif,mp4" /\
    carriesOnce query "q" "so excited" /\
    carriesOnce query "key" "a&b=c" /\
    carriesOnce query "limit" "50" /\
    carriesOnce query "pos" "1e+21" /\
    carriesOnce query "ar_range" "0.5" /\
    carriesOnce query "random" "true".
Proof.
  destruct (createUrlParameters_serializes mixedWorld 0%nat _ eq_refl
              mixedParameters_distinct)
    as (urlParameters & Hrun & Habsent & Hfalsy & Hempty & Harray & Hscalar).
  exists urlParameters. split; [exact Hrun|]. cbv zeta.
  split.
  { rewrite (createUrlParameters_run mixedWorld 0%nat _ eq_refl) in Hrun.
    inversion Hrun; subst. reflexivity. }
  split; [apply Habsent; simpl; intuition discriminate|].
  split; [apply (Hfalsy _ (VNumber zero)); [simpl; tauto | reflexivity]|].
  split; [apply (Hfalsy _ (VNumber NaN)); [simpl; tauto | reflexivity]|].
  split; [apply (Hfalsy _ (VBoolean false)); [simpl; tauto | reflexivity]|].
  split; [apply (Hfalsy _ VUndefined); [simpl; tauto | reflexivity]|].
  split; [apply (Hfalsy _ (VString "")); [simpl; tauto | reflexivity]|].
  split; [apply Hempty; simpl; tauto|].
  split; [apply (Harray "media_filter" "gif" ["mp4"]); simpl; tauto|].
  split; [apply (Hscalar "q" (VString "so excited")); [simpl; tauto | reflexivity..]|].
  split; [apply (Hscalar "key" (VString "a&b=c")); [simpl; tauto | reflexivity..]|].
  split; [apply (Hscalar "limit" (VNumber fifty)); [simpl; tauto | reflexivity..]|].
  split; [apply (Hscalar "pos" (VNumber sextillion)); [simpl; tauto | reflexivity..]|].
  split; [apply (Hscalar "ar_range" (VNumber half)); [simpl; tauto | reflexivity..]|].
  apply (Hscalar "random" (VBoolean true)); [simpl; tauto | reflexivity..].
Defined.

Lemma query_round_trip_witness :
  exists urlParameters,
    createUrlParameters 0%nat mixedWorld = (mixedWorld, Ok urlParameters) /\
    let parsed := URLSearchParams.parse (URLSearchParams.toString urlParameters) in
    parsed = urlParameters /\
    recovered parsed "q" = Some (VString "so excited") /\
    recovered parsed "key" = Some (VString "a&b=c") /\
    recovered parsed "limit" = Some (VString "50") /\
    recovered parsed "pos" = Some (VString "1e+21") /\
    recovered parsed "random" = Some (VString "true") /\
    (recovered parsed "q" = Some (VString "so excited") <->
     exists s, VString "so excited" = VString s) /\
    (recovered parsed "limit" = Some (VNumber fifty) <->
     exists s, VNumber fifty = VString s).
Proof.
  destruct (query_round_trip mixedWorld 0%nat _ eq_refl mixedParameters_distinct)
    as (urlParameters & Hrun & Hparsed & Hscalar & Hstring).
  exists urlParameters. split; [exact Hrun|]. cbv zeta.
  split; [exact Hparsed|].
  split; [apply Hstring; [simpl; tauto | discriminate]|].
  split; [apply Hstring; [simpl; tauto | discriminate]|].
  split; [apply (Hscalar "limit" (VNumber fifty)); [simpl; tauto | reflexivity..]|].
  split; [apply (Hscalar "pos" (VNumber sextillion)); [simpl; tauto | reflexivity..]|].
  split; [apply (Hscalar "random" (VBoolean true)); [simpl; tauto | reflexivity..]|].
  split.
  - apply (Hscalar "q" (VString "so excited")); [simpl; tauto | reflexivity..].
  - apply (Hscalar "limit" (VNumber fifty)); [simpl; tauto | reflexivity..].
Defined.

(** C8, as stated, fails: for the parameters [{limit: 8}] the query string
    is [limit=8], and parsing it gives the string [8] under [limit], not the
    number the object held. *)
Lemma query_round_trip_changes_numbers :
  exists urlParameters,
    createUrlParameters 1%nat exampleWorld = (exampleWorld, Ok urlParameters) /\
    URLSearchParams.toString urlParameters = "limit=8" /\
    recovered (URLSearchParams.parse (URLSearchParams.toString urlParameters)) "limit"
    = Some (VString "8") /\
    recovered (URLSearchParams.parse (URLSearchParams.toString urlParameters)) "limit"
    <> Some (VNumber eight).
Proof.
  exists [("limit", "8")].
  split; [reflexivity|]. split; [reflexivity|]. split; [reflexivity|].
  discriminate.
Qed.

Lemma examples_permuted :
  Permutation
    [("searchTerm", VString "excited"); ("limit", VNumber eight);
     ("contentFormats", VArray ["gif"])]
    [("limit", VNumber eight); ("contentFormats", VArray ["gif"]);
     ("searchTerm", VString "excited")].
Proof.
  apply (Permutation_cons_app [_; _] [] _). reflexivity.
Qed.

Lemma pipeline_deterministic_witness :
  exists query1 query2,
    snd (queryString 4%nat exampleWorld) = Ok query1 /\
    snd (queryString 5%nat (extended exampleWorld [unfrozen []] [Get "earlier"]))
    = Ok query2 /\
    query1 = "q=excited&limit=8&media_filter=gif" /\
    query2 = "limit=8&media_filter=gif&q=excited" /\
    Permutation (URLSearchParams.split "&" query1) (URLSearchParams.split "&" query2).
Proof.
  destruct (pipeline_deterministic exampleWorld
              (extended exampleWorld [unfrozen []] [Get "earlier"])
              4%nat 5%nat _ _ eq_refl eq_refl)
    as (query1 & query2 & H1 & H2 & _ & Hperm).
  exists query1, query2. split; [exact H1|]. split; [exact H2|].
  vm_compute in H1, H2. inversion H1; inversion H2; subst.
  split; [reflexivity|]. split; [reflexivity|].
  apply Hperm; [exact exampleParameters_typed | exact examples_permuted].
Defined.

Lemma exampleOptions_typed :
  isEndpointParameters [("clientKey", VString "my_test_app")].
Proof.
  split; [distinct_names|]. apply List.Forall_cons; [|constructor].
  cbn. repeat (first [left; reflexivity | right]).
Qed.

Lemma exampleLimit_typed : isEndpointParameters [("limit", VNumber eight)].
Proof.
  split; [distinct_names|]. apply List.Forall_cons; [|constructor].
  cbn. repeat (first [left; reflexivity | right]).
Qed.

Lemma noParameters_typed : isEndpointParameters [].
Proof. split; constructor. Qed.

Lemma getGifsByCategory_appends_query_witness :
  trace (fst (getGifsByCategory (respond 200 emptyResults) 1%nat excited
                (Some 1%nat) exampleWorld))
  = [Get (baseUrl ++ "search?q=excited&" ++ "key=" ++ URLSearchParams.encode "KEY"
          ++ "&limit=8")] /\
  trace (fst (getGifsByCategory (respond 200 emptyResults) 0%nat excitedFromRoot
                (Some 1%nat) exampleWorld))
  = [Get "https://tenor.googleapis.com/v2/search?q=excited&locale=en&component=categories&contentfilter=high&key=KEY&client_key=my_test_app&limit=8"].
Proof.
  split.
  - apply (proj2 (proj2 (proj2
             (getGifsByCategory_appends_query (respond 200 emptyResults)
                exampleWorld 1%nat excited (Some 1%nat)
                {| key := "KEY"; options := None |} []
                [("limit", VNumber eight)] ltac:(ready) eq_refl
                noParameters_typed exampleLimit_typed)))
             (or_introl eq_refl) eq_refl eq_refl).
  - exact (proj1 (proj2
             (getGifsByCategory_appends_query (respond 200 emptyResults)
                exampleWorld 0%nat excitedFromRoot (Some 1%nat) exampleClient
                [("clientKey", VString "my_test_app")]
                [("limit", VNumber eight)] ltac:(ready) eq_refl
                exampleOptions_typed exampleLimit_typed))).
Defined.

Lemma exampleSupplied_typed :
  isEndpointParameters
    (suppliedFields (GifsBySearch "excited" (Some 1%nat)) [("limit", VNumber eight)]).
Proof.
  split; [distinct_names|].
  repeat (apply List.Forall_cons;
          [cbn; repeat (first [left; reflexivity | right])|]).
  constructor.
Qed.

Lemma combining_calls_hand_over_configuration_witness :
  let call := GifsBySearch "excited" (Some 1%nat) in
  let fields :=
    handedFields exampleClient call [("clientKey", VString "my_test_app")]
                 [("limit", VNumber eight)] in
  (exists resourceName url,
     resourceOf call = Some resourceName /\
     trace (fst (perform (respond 200 emptyResults) 0%nat call exampleWorld))
     = [ Invoked resourceName fields; Get url ]) /\
  JS.get "key" fields = Some (VString "KEY") /\
  JS.get "clientKey" fields = Some (VString "my_test_app") /\
  JS.get "limit" fields = Some (VNumber eight) /\
  trace (fst (perform (respond 200 emptyResults) 0%nat
                (GifsByCategory excitedFromRoot (Some 1%nat)) exampleWorld))
  = [ Get "https://tenor.googleapis.com/v2/search?q=excited&locale=en&component=categories&contentfilter=high&key=KEY&client_key=my_test_app&limit=8" ].
Proof.
  intros call fields.
  destruct (combining_calls_hand_over_configuration (respond 200 emptyResults)
              exampleWorld 0%nat call exampleClient
              [("clientKey", VString "my_test_app")] [("limit", VNumber eight)]
              ltac:(ready) I ltac:(distinct_names) ltac:(distinct_names) eq_refl)
    as (Htrace & Hkey & Hoptions & Hsupplied).
  split; [exact (Htrace exampleOptions_typed exampleSupplied_typed)|].
  split; [apply Hkey; reflexivity|].
  split; [apply Hoptions; reflexivity|]. split; [apply Hsupplied; reflexivity|].
  exact (proj1 (combining_calls_hand_over_configuration (respond 200 emptyResults)
                  exampleWorld 0%nat (GifsByCategory excitedFromRoot (Some 1%nat))
                  exampleClient
                  [("clientKey", VString "my_test_app")] [("limit", VNumber eight)]
                  ltac:(ready) eq_refl ltac:(distinct_names) ltac:(distinct_names)
                  eq_refl)
           exampleOptions_typed exampleLimit_typed).
Defined.


(** * Further properties of the code *)

(** ** Results and errors of the nine methods *)

Section Results.

Variable network : list string -> string -> Result Response.

(** The result of every call is what the method makes of the transport's
    answer to the one URL it requests. *)
Lemma perform_result w this call self fromOptions fromParameters :
  Ready w this (parametersOf call) self fromOptions fromParameters ->
  snd (perform network this call w)
  = resultOf call
      (settle (network (requested (trace w))
                       (requestUrl self call fromOptions fromParameters))).
Proof.
  intros HR. destruct call; cbn [perform parametersOf] in *; unfold bind;
    first
      [ rewrite (getSearchTermSuggestions_run _ _ _ _ _ _ _ _ HR)
      | rewrite (getSearchTermAutocompletes_run _ _ _ _ _ _ _ _ HR)
      | rewrite (getTrendingSearchTerms_run _ _ _ _ _ _ _ HR)
      | rewrite (getGifsBySearch_run _ _ _ _ _ _ _ _ HR)
      | rewrite (getGifsByCategory_run _ _ _ _ _ _ _ _ HR)
      | rewrite (getGifsById_run _ _ _ _ _ _ _ _ HR)
      | rewrite (getFeaturedGifs_run _ _ _ _ _ _ _ HR)
      | rewrite (getGifCategories_run _ _ _ _ _ _ _ HR)
      | rewrite (registerGifShareEvent_run _ _ _ _ _ _ _ _ HR) ];
    cbv zeta; unfold resultOf, requestUrl, handedFields;
    cbn [combines resourceOf suppliedFields snd];
    try (destruct (settle _); reflexivity); reflexivity.
Qed.

Lemma requested_app events events' :
  requested (events ++ events')%list = (requested events ++ requested events')%list.
Proof. unfold requested. apply flat_map_app. Qed.

Lemma requested_eventsOf self call fromOptions fromParameters :
  requested (eventsOf self call fromOptions fromParameters)
  = [requestUrl self call fromOptions fromParameters].
Proof. destruct call; reflexivity. Qed.

End Results.

(** X2. On a failure status no method returns normally.  Whatever the
    method, if the response to its request has a status outside 200-299 and
    a body that decodes, the call throws: a [GoogleApiError] built from the
    body's [error] property when the body is an object that has one, a
    [TypeError] when the body is [null].  [registerGifShareEvent] throws
    like the others and does not read [status]. *)
Theorem failure_status_throws :
  forall network w this call self fromOptions fromParameters response body,
    Ready w this (parametersOf call) self fromOptions fromParameters ->
    network (requested (trace w))
            (requestUrl self call fromOptions fromParameters) = Ok response ->
    Response_ok response = false ->
    json response = Ok body ->
    (forall result, snd (perform network this call w) <> Ok result) /\
    (forall members error,
       body = JObject members -> member "error" members = Some error ->
       snd (perform network this call w) = Throw (GoogleApiError (Some error))) /\
    (body = JNull -> snd (perform network this call w) = Throw TypeError).
Proof.
  intros network w this call self fromOptions fromParameters response body
         HR Hnet Hok Hjson.
  rewrite (perform_result network _ _ _ _ _ _ HR), Hnet.
  unfold settle. rewrite Hjson, Hok. cbn [negb]. split; [|split].
  - intros result. destruct (readProperty body "error"); discriminate.
  - intros members error -> Herror. cbn [readProperty]. rewrite Herror. reflexivity.
  - intros ->. reflexivity.
Qed.

(** X3. Failures of the transport pass through every method unchanged: if
    [fetch] rejects with an exception, the call throws that exception; if
    [response.json()] throws, the call throws that exception, on a failure
    status too (the body is decoded before the status is looked at, so a
    failure response with an undecodable body gives the decoding error and
    no [GoogleApiError]). *)
Theorem transport_failures_pass_through :
  forall network w this call self fromOptions fromParameters e,
    Ready w this (parametersOf call) self fromOptions fromParameters ->
    (network (requested (trace w))
             (requestUrl self call fromOptions fromParameters) = Throw e \/
     exists status,
       network (requested (trace w))
               (requestUrl self call fromOptions fromParameters)
       = Ok {| status := status; json := Throw e |}) ->
    snd (perform network this call w) = Throw e.
Proof.
  intros network w this call self fromOptions fromParameters e HR Hnet.
  rewrite (perform_result network _ _ _ _ _ _ HR).
  destruct Hnet as [Hnet|[status Hnet]]; rewrite Hnet; reflexivity.
Qed.

(** X4. On a success status the eight methods other than
    [registerGifShareEvent] return the decoded body as it is, whatever its
    shape: nothing is validated, and [null] or a body of another endpoint is
    returned like any other. *)
Theorem success_returns_body_unvalidated :
  forall network w this call self fromOptions fromParameters response body,
    Ready w this (parametersOf call) self fromOptions fromParameters ->
    combines call = true ->
    network (requested (trace w))
            (requestUrl self call fromOptions fromParameters) = Ok response ->
    Response_ok response = true ->
    json response = Ok body ->
    snd (perform network this call w) = Ok (Some body).
Proof.
  intros network w this call self fromOptions fromParameters response body
         HR Hc Hnet Hok Hjson.
  rewrite (perform_result network _ _ _ _ _ _ HR), Hnet.
  unfold settle. rewrite Hjson, Hok. cbn [negb resultOf].
  destruct call; try reflexivity. discriminate.
Qed.

(** X5. [registerGifShareEvent] on a success status whose body is not the
    expected envelope: a [null] body makes it throw a [TypeError]; an object
    without a [status] property, and any body that is not an object, make it
    return [undefined] rather than a boolean. *)
Theorem registerGifShareEvent_odd_bodies :
  forall network w this id parameters self fromOptions fromParameters
         response body,
    Ready w this parameters self fromOptions fromParameters ->
    network (requested (trace w))
            (endpointUrl registershare (assign [("id", VString id)] fromParameters))
    = Ok response ->
    Response_ok response = true ->
    json response = Ok body ->
    (body = JNull ->
     snd (registerGifShareEvent network this id parameters w) = Throw TypeError) /\
    (forall members,
       body = JObject members -> member "status" members = None ->
       snd (registerGifShareEvent network this id parameters w) = Ok None) /\
    ((forall members, body <> JObject members) -> body <> JNull ->
     snd (registerGifShareEvent network this id parameters w) = Ok None).
Proof.
  intros network w this id parameters self fromOptions fromParameters
         response body HR Hnet Hok Hjson.
  rewrite (registerGifShareEvent_run _ _ _ _ _ _ _ _ HR). cbn [snd].
  rewrite Hnet. unfold settle. rewrite Hjson, Hok. cbn [negb].
  split; [|split].
  - intros ->. reflexivity.
  - intros members -> Hstatus. cbn [readProperty]. rewrite Hstatus. reflexivity.
  - intros Hobject Hnull. destruct body; try reflexivity.
    + congruence.
    + exfalso. exact (Hobject _ eq_refl).
Qed.

(** X6. Every call with [EndpointParameters] inputs whose reference is a
    plain one (the path of the category, for [getGifsByCategory]; the other
    methods build theirs) issues exactly one GET request, whatever the
    transport answers and whether the call returns or throws: the list of
    requested URLs grows by the URL of the call and by nothing else (no
    retry, no second request).  That URL is the
    reference of the call, the resource name and [?] or the path of the
    category and [&] followed by the query string, itself a plain reference,
    put after the base (after its origin when the path has a leading
    slash). *)
Theorem one_request_per_call :
  forall network w this call self fromOptions fromParameters,
    Ready w this (parametersOf call) self fromOptions fromParameters ->
    wellReferenced call ->
    isEndpointParameters fromOptions ->
    isEndpointParameters (suppliedFields call fromParameters) ->
    let reference :=
      urlPrefix call ++
      queryOf (handedFields self call fromOptions fromParameters) in
    requested (trace (fst (perform network this call w)))
    = (requested (trace w) ++ [requestUrl self call fromOptions fromParameters])%list /\
    requestUrl self call fromOptions fromParameters
    = referenceBase call ++ reference /\
    plainReference reference = true.
Proof.
  intros network w this call self fromOptions fromParameters HR Hplain _ _
         reference.
  split; [|split; [apply requestUrl_split | apply plainReference_call; exact Hplain]].
  rewrite (perform_world network _ _ _ _ _ _ HR). cbn [extended trace].
  rewrite requested_app, requested_eventsOf. reflexivity.
Qed.

(** ** More on the normalizer *)

Section MoreRenameFacts.

Lemma keys_set_iff k v ps k' :
  In k' (keys (JS.set k v ps)) <-> k' = k \/ In k' (keys ps).
Proof.
  destruct (in_dec string_dec k (keys ps)) as [Hin|Hnotin].
  - rewrite keys_set_In by exact Hin. split; [tauto|].
    intros [->|H]; assumption.
  - rewrite set_fresh by exact Hnotin. unfold keys. rewrite List.map_app.
    rewrite List.in_app_iff. simpl. split; [intros [H|[H|[]]]; auto | intros [H|H]; auto].
Qed.

Lemma keys_assign_iff target source k :
  In k (keys (assign target source)) <-> In k (keys target) \/ In k (keys source).
Proof.
  revert target. induction source as [|[k1 v1] source IH]; intros target.
  - simpl. tauto.
  - rewrite assign_cons, IH, keys_set_iff. simpl. split.
    + intros [[->|H]|H]; auto.
    + intros [H|[->|H]]; auto.
Qed.

Lemma length_set k v ps : (length (JS.set k v ps) <= S (length ps))%nat.
Proof.
  induction ps as [|[k' v'] ps IH]; simpl; [lia|].
  destruct (String.eqb k' k); simpl; lia.
Qed.

Lemma length_renameInto ps acc :
  (length (renameInto acc ps) <= length acc + length ps)%nat.
Proof.
  revert acc. induction ps as [|[k v] ps IH]; intros acc.
  - cbn [renameInto fold_left length]. lia.
  - change (renameInto acc ((k, v) :: ps))
      with (renameInto (JS.set (newNameOf k) v acc) ps).
    specialize (IH (JS.set (newNameOf k) v acc)).
    pose proof (length_set (newNameOf k) v acc). cbn [length]. lia.
Qed.

(** A name the table produces is not renamed again. *)
Lemma newNameOf_idempotent k : newNameOf (newNameOf k) = newNameOf k.
Proof.
  unfold newNameOf at 2 3.
  destruct (lookupName newParameterNames k) as [n|] eqn:Hk.
  - apply lookupName_Some_In in Hk.
    pose proof wire_names_not_renamed as Hall.
    rewrite List.forallb_forall in Hall. specialize (Hall _ Hk).
    unfold newNameOf. destruct (lookupName newParameterNames n); [discriminate|].
    reflexivity.
  - unfold newNameOf. rewrite Hk. reflexivity.
Qed.

Lemma In_keys_get k ps : In k (keys ps) -> exists v, JS.get k ps = Some v.
Proof.
  intros Hin. destruct (JS.get k ps) as [v|] eqn:Hget; [eauto|].
  apply get_None_iff in Hget. contradiction.
Qed.

(** Every name of the result is the new name of a name of the input. *)
Lemma renameInto_names ps k' :
  In k' (keys (renameInto [] ps)) -> exists k, In k (keys ps) /\ newNameOf k = k'.
Proof.
  intros Hin. apply In_keys_get in Hin. destruct Hin as [v Hget].
  apply renameInto_origin in Hget. destruct Hget as [Hget|(k & Hin & E)].
  - discriminate.
  - exists k. split; [|exact E]. apply (List.in_map fst) in Hin. exact Hin.
Qed.

Lemma renameInto_fixed ps k' :
  In k' (keys (renameInto [] ps)) -> newNameOf k' = k'.
Proof.
  intros Hin. apply renameInto_names in Hin. destruct Hin as (k & _ & <-).
  apply newNameOf_idempotent.
Qed.

Lemma map_renameEntry_fixed ps :
  (forall k, In k (keys ps) -> newNameOf k = k) -> map renameEntry ps = ps.
Proof.
  induction ps as [|[k v] ps IH]; intros Hfixed; [reflexivity|].
  simpl. unfold renameEntry at 1. simpl.
  rewrite (Hfixed k) by (left; reflexivity).
  rewrite IH; [reflexivity|]. intros k' Hk'. apply Hfixed. right. exact Hk'.
Qed.

Lemma map_newNameOf_fixed names :
  (forall k, In k names -> newNameOf k = k) -> map newNameOf names = names.
Proof.
  induction names as [|k names IH]; intros Hfixed; [reflexivity|].
  simpl. rewrite (Hfixed k) by (left; reflexivity).
  rewrite IH; [reflexivity|]. intros k' Hk'. apply Hfixed. right. exact Hk'.
Qed.

(** Renaming what was renamed changes nothing. *)
Lemma renameInto_idempotent ps :
  renameInto [] (renameInto [] ps) = renameInto [] ps.
Proof.
  set (once := renameInto [] ps).
  assert (Hfixed : forall k, In k (keys once) -> newNameOf k = k)
    by (intros k; apply renameInto_fixed).
  rewrite (renameInto_fresh once []).
  - simpl. apply map_renameEntry_fixed. exact Hfixed.
  - rewrite (map_newNameOf_fixed _ Hfixed).
    apply (NoDup_keys_renameInto ps []). constructor.
  - intros k _ [].
Qed.

End MoreRenameFacts.

Lemma renameTwice_run w parameters o :
  heap w !! parameters = Some o ->
  renameTwice parameters w
  = (extended w [frozenObj (renameInto [] (props o));
                 frozenObj (renameInto [] (props o))] [],
     Ok (length (heap w), S (length (heap w)))).
Proof.
  intros Hr. unfold renameTwice.
  unfold bind at 1. rewrite (renameParameters_run _ _ _ Hr), with_heap_extended.
  unfold bind at 1.
  erewrite renameParameters_run by (cbn [extended heap]; apply lookup_last).
  rewrite with_heap_extended, extended_extended.
  cbn [bind ret extended heap frozenObj props app].
  rewrite renameInto_idempotent, length_app. cbn [length].
  rewrite Nat.add_1_r. reflexivity.
Qed.

(** X7. [renameParameters] is idempotent: applied to its own result it
    returns a second new object with the same properties, in the same order,
    as the first (the wire names are not renamed again).  This holds for
    every object, inside the type [EndpointParameters] or not. *)
Theorem renameParameters_idempotent :
  forall w parameters o,
    heap w !! parameters = Some o ->
    exists once twice o1 o2,
      snd (renameTwice parameters w) = Ok (once, twice) /\
      once <> twice /\
      heap (fst (renameTwice parameters w)) !! once = Some o1 /\
      heap (fst (renameTwice parameters w)) !! twice = Some o2 /\
      props o2 = props o1.
Proof.
  intros w parameters o Hr. rewrite (renameTwice_run _ _ _ Hr).
  cbn [fst snd extended heap].
  exists (length (heap w)), (S (length (heap w))).
  eexists _, _. split; [reflexivity|]. split; [lia|]. split; [|split].
  - apply (list_lookup_middle (heap w) [_]). reflexivity.
  - change (heap w ++ [?a; ?b])%list with (heap w ++ [a] ++ [b])%list.
    rewrite app_assoc. apply list_lookup_middle.
    rewrite length_app. cbn [length]. lia.
  - reflexivity.
Qed.

Section ClashFacts.

Lemma renameInto_keeps_names ps acc k' :
  In k' (keys acc) -> In k' (keys (renameInto acc ps)).
Proof.
  revert acc. induction ps as [|[k v] ps IH]; intros acc Hin; [exact Hin|].
  change (renameInto acc ((k, v) :: ps))
    with (renameInto (JS.set (newNameOf k) v acc) ps).
  apply IH. apply keys_set_iff. right. exact Hin.
Qed.

Lemma renameInto_has_new_names ps acc k :
  In k (keys ps) -> In (newNameOf k) (keys (renameInto acc ps)).
Proof.
  revert acc. induction ps as [|[k0 v0] ps IH]; intros acc Hin; [destruct Hin|].
  change (renameInto acc ((k0, v0) :: ps))
    with (renameInto (JS.set (newNameOf k0) v0 acc) ps).
  destruct Hin as [E|Hin].
  - simpl in E. subst k0. apply renameInto_keeps_names.
    apply keys_set_iff. left. reflexivity.
  - apply IH. exact Hin.
Qed.

(** Entries that are sent under other names leave a property alone. *)
Lemma get_renameInto_others ps acc k' :
  (forall k, In k (keys ps) -> newNameOf k <> k') ->
  JS.get k' (renameInto acc ps) = JS.get k' acc.
Proof.
  revert acc. induction ps as [|[k v] ps IH]; intros acc Hothers; [reflexivity|].
  change (renameInto acc ((k, v) :: ps))
    with (renameInto (JS.set (newNameOf k) v acc) ps).
  rewrite IH by (intros k2 Hk2; apply Hothers; right; exact Hk2).
  apply get_set_ne. apply Hothers. left. reflexivity.
Qed.

Lemma renameInto_app ps ps' acc :
  renameInto acc (ps ++ ps')%list = renameInto (renameInto acc ps) ps'.
Proof. unfold renameInto. apply fold_left_app. Qed.

(** The last entry sent under a name decides the value. *)
Lemma get_renameInto_last before k v after :
  (forall k2, In k2 (keys after) -> newNameOf k2 <> newNameOf k) ->
  JS.get (newNameOf k) (renameInto [] (before ++ (k, v) :: after)%list) = Some v.
Proof.
  intros Hlast. rewrite renameInto_app.
  change (renameInto (renameInto [] before) ((k, v) :: after))
    with (renameInto (JS.set (newNameOf k) v (renameInto [] before)) after).
  rewrite get_renameInto_others by exact Hlast. apply get_set_eq.
Qed.

End ClashFacts.

(** Only [__proto__] is sent under the name [__proto__]. *)
Lemma newNameOf_proto k : newNameOf k = "__proto__" -> k = "__proto__".
Proof.
  unfold newNameOf. destruct (lookupName newParameterNames k) as [n|] eqn:Hk;
    [|intros E; exact E].
  intros E. subst n. apply lookupName_Some_In in Hk.
  simpl in Hk. repeat (destruct Hk as [Hk|Hk]; [discriminate|]). destruct Hk.
Qed.

(** X8. What [renameParameters] guarantees for every object none of whose
    properties is named [__proto__], of the type [EndpointParameters] or not:
    the result has distinct property names, as
    many properties as the input or fewer, none under a name the table
    renames and none named [__proto__]; the new name of every input property
    is a property of the result; every value of the result is the value of an input property sent
    under that name; and where several input properties are sent under one
    name, the last of them gives the value. *)
Theorem renameParameters_any_object :
  forall w parameters o,
    heap w !! parameters = Some o ->
    ~ In "__proto__" (keys (props o)) ->
    exists renamed o',
      snd (renameParameters parameters w) = Ok renamed /\
      heap (fst (renameParameters parameters w)) !! renamed = Some o' /\
      List.NoDup (keys (props o')) /\
      (length (props o') <= length (props o))%nat /\
      (forall k newName,
         lookupName newParameterNames k = Some newName ->
         JS.get k (props o') = None) /\
      JS.get "__proto__" (props o') = None /\
      (forall k, In k (keys (props o)) -> In (newNameOf k) (keys (props o'))) /\
      (forall k' v,
         JS.get k' (props o') = Some v ->
         exists k, In (k, v) (props o) /\ newNameOf k = k') /\
      (forall before k v after,
         props o = (before ++ (k, v) :: after)%list ->
         (forall k2, In k2 (keys after) -> newNameOf k2 <> newNameOf k) ->
         JS.get (newNameOf k) (props o') = Some v).
Proof.
  intros w parameters o Hr Hordinary.
  rewrite (renameParameters_run _ _ _ Hr). cbn [fst snd with_heap heap].
  exists (length (heap w)), (frozenObj (renameInto [] (props o))).
  split; [reflexivity|]. split; [apply lookup_last|]. cbn [frozenObj props].
  split; [apply (NoDup_keys_renameInto (props o) []); constructor|].
  split; [apply (length_renameInto (props o) [])|].
  split; [|split; [|split; [|split]]].
  - intros k newName Hk.
    destruct (JS.get k (renameInto [] (props o))) as [v|] eqn:Hget; [|reflexivity].
    apply renameInto_origin in Hget. destruct Hget as [Hget|(k0 & _ & E)].
    + discriminate.
    + exfalso. exact (newNameOf_not_renamed k0 k newName Hk E).
  - destruct (JS.get "__proto__" (renameInto [] (props o))) as [v|] eqn:Hget;
      [|reflexivity].
    apply renameInto_origin in Hget. destruct Hget as [Hget|(k0 & Hin & E)].
    + discriminate.
    + exfalso. apply Hordinary.
      rewrite <- (newNameOf_proto k0 E). apply (List.in_map fst) in Hin. exact Hin.
  - intros k Hk. apply renameInto_has_new_names. exact Hk.
  - intros k' v Hget. apply renameInto_origin in Hget.
    destruct Hget as [Hget|Hget]; [discriminate | exact Hget].
  - intros before k v after -> Hlast. apply get_renameInto_last. exact Hlast.
Qed.

(** X9. On an [EndpointParameters] object [renameParameters] keeps every
    property, in its place and with its value: the result has the input's
    properties in the input's order, each under its new name, and the values
    are the input's values, [undefined] and other falsy values included
    (nothing is filtered at this stage). *)
Theorem renameParameters_keeps_order :
  forall w parameters o,
    heap w !! parameters = Some o ->
    isEndpointParameters (props o) ->
    exists renamed o',
      snd (renameParameters parameters w) = Ok renamed /\
      heap (fst (renameParameters parameters w)) !! renamed = Some o' /\
      keys (props o') = map newNameOf (keys (props o)) /\
      map snd (props o') = map snd (props o).
Proof.
  intros w parameters o Hr Htyped.
  rewrite (renameParameters_run _ _ _ Hr). cbn [fst snd with_heap heap].
  exists (length (heap w)), (frozenObj (renameInto [] (props o))).
  split; [reflexivity|]. split; [apply lookup_last|]. cbn [frozenObj props].
  rewrite (renameInto_EndpointParameters _ Htyped).
  split; [apply keys_map_renameEntry|].
  rewrite List.map_map. reflexivity.
Qed.

(** ** More on the query builder *)

Section MoreQueryFacts.

Lemma parameters_of_retained ps :
  flat_map parameterOf ps
  = map (fun entry => (fst entry, JS.toString (snd entry))) (retainedEntries ps).
Proof.
  unfold retainedEntries.
  induction ps as [|[k v] ps IH]; [reflexivity|].
  cbn [flat_map List.filter snd]. unfold parameterOf at 1. cbn [fst snd].
  destruct (retained v); cbn [app map fst snd]; rewrite IH; reflexivity.
Qed.

Lemma retainedEntries_nil_iff ps :
  retainedEntries ps = [] <-> forall k v, In (k, v) ps -> retained v = false.
Proof.
  unfold retainedEntries. induction ps as [|[k v] ps IH]; cbn [List.filter snd].
  - split; [intros _ k v [] | reflexivity].
  - destruct (retained v) eqn:Hv.
    + split; [discriminate|]. intros H. specialize (H k v (or_introl eq_refl)).
      congruence.
    + rewrite IH. split.
      * intros H k' v' [E|Hin]; [inversion E; subst; exact Hv | exact (H k' v' Hin)].
      * intros H k' v' Hin. apply (H k' v'). right. exact Hin.
Qed.

Lemma toString_empty_iff (params : URLSearchParams.t) :
  URLSearchParams.toString params = "" <-> params = [].
Proof.
  split; [|intros ->; reflexivity].
  destruct params as [|p params]; [reflexivity|]. intros H. exfalso.
  assert (Hsplit : URLSearchParams.split "&" (URLSearchParams.toString (p :: params))
                   = [""]) by (rewrite H; reflexivity).
  rewrite URLSearchParamsFacts.split_toString in Hsplit.
  cbn [map] in Hsplit. inversion Hsplit as [[Hp Hrest]].
  pose proof (URLSearchParamsFacts.encodePair_nonempty p) as Hne.
  rewrite Hp in Hne. discriminate.
Qed.

Lemma length_retainedEntries ps : (length (retainedEntries ps) <= length ps)%nat.
Proof.
  unfold retainedEntries. induction ps as [|e ps IH]; cbn [List.filter length]; [lia|].
  destruct (retained (snd e)); cbn [length]; lia.
Qed.

Lemma queryOf_empty fields :
  (forall k v, In (k, v) fields -> retained v = false) -> queryOf fields = "".
Proof.
  intros Hnone. unfold queryOf. apply toString_empty_iff.
  rewrite parameters_of_retained.
  assert (Hnil : retainedEntries (renameInto [] fields) = []).
  { apply retainedEntries_nil_iff. intros k' v Hin.
    assert (Hget : JS.get k' (renameInto [] fields) = Some v).
    { apply get_of_In; [|exact Hin].
      apply (NoDup_keys_renameInto fields []). constructor. }
    apply renameInto_origin in Hget. destruct Hget as [Hget|(k & Hk & _)].
    - discriminate.
    - exact (Hnone k v Hk). }
  rewrite Hnil. reflexivity.
Qed.

End MoreQueryFacts.

(** X10. [createUrlParameters] reads its object and changes nothing; it
    yields one parameter for each retained property (truthy and not an empty
    array), in the order of the properties, named as the property and valued
    with its string form (for a number: as JavaScript prints it), so never
    more parameters than properties.  The query string is empty exactly when
    no property is retained (the empty object included); otherwise its pieces
    between the [&] are, in the order of the retained properties, the
    urlencoded name, [=], and the urlencoded string form of the value. *)
Theorem createUrlParameters_in_order :
  forall w parameters o,
    heap w !! parameters = Some o ->
    exists urlParameters,
      createUrlParameters parameters w = (w, Ok urlParameters) /\
      urlParameters
      = map (fun entry => (fst entry, JS.toString (snd entry)))
            (retainedEntries (props o)) /\
      (length urlParameters <= length (props o))%nat /\
      (URLSearchParams.toString urlParameters = "" <->
       forall k v, In (k, v) (props o) -> retained v = false) /\
      (retainedEntries (props o) <> [] ->
       URLSearchParams.split "&" (URLSearchParams.toString urlParameters)
       = map (fun entry =>
                URLSearchParams.encode (fst entry) ++ "=" ++
                URLSearchParams.encode (JS.toString (snd entry)))
             (retainedEntries (props o))).
Proof.
  intros w parameters o Hr. exists (flat_map parameterOf (props o)).
  split; [apply createUrlParameters_run; exact Hr|].
  rewrite parameters_of_retained. split; [reflexivity|]. split; [|split].
  - rewrite length_map. apply length_retainedEntries.
  - rewrite toString_empty_iff, <- retainedEntries_nil_iff.
    split; [|intros ->; reflexivity].
    destruct (retainedEntries (props o)); [reflexivity | discriminate].
  - intros Hsome. destruct (retainedEntries (props o)) as [|entry entries];
      [contradiction|].
    cbn [map]. rewrite URLSearchParamsFacts.split_toString.
    cbn [map]. rewrite List.map_map. reflexivity.
Qed.

(** X11. [fetchTenorApiEndpoint] makes its request even when there is
    nothing to send: for an object none of whose properties is retained (the
    empty object, or only falsy values and empty arrays) it requests the
    resource name followed by a bare [?]. *)
Theorem fetchTenorApiEndpoint_nothing_to_send :
  forall network resourceName parameters o w,
    heap w !! parameters = Some o ->
    (forall k v, In (k, v) (props o) -> retained v = false) ->
    requested (trace (fst (fetchTenorApiEndpoint network resourceName parameters w)))
    = (requested (trace w) ++
       [(baseUrl ++ ResourceName_toString resourceName ++ "?")%string])%list.
Proof.
  intros network resourceName parameters o w Hr Hnone.
  rewrite (fetchTenorApiEndpoint_run network _ _ _ _ Hr).
  cbn [fst extended trace]. rewrite requested_app. f_equal.
  unfold endpointUrl. rewrite (queryOf_empty _ Hnone), URL_endpoint. reflexivity.
Qed.

(** ** The options are shared with the caller *)



(** ** From the call to the wire *)

Section WireFacts.

Lemma isEndpointParameters_assign target source :
  isEndpointParameters target -> isEndpointParameters source ->
  isEndpointParameters (assign target source).
Proof.
  intros [Hndt Ht] [_ Hs]. split; [apply NoDup_keys_assign; exact Hndt|].
  rewrite List.Forall_forall in *. intros k Hk.
  apply keys_assign_iff in Hk. destruct Hk as [Hk|Hk]; auto.
Qed.

Lemma isEndpointParameters_key accessKey :
  isEndpointParameters [("key", VString accessKey)].
Proof.
  split; [distinct_names|].
  apply List.Forall_cons; [|constructor].
  cbn. repeat (first [left; reflexivity | right]).
Qed.

Lemma isEndpointParameters_handedFields self call fromOptions fromParameters :
  isEndpointParameters fromOptions ->
  isEndpointParameters (suppliedFields call fromParameters) ->
  isEndpointParameters (handedFields self call fromOptions fromParameters).
Proof.
  intros Ho Hs. unfold handedFields. destruct (combines call); [|exact Hs].
  unfold combinedFields.
  apply isEndpointParameters_assign; [|exact Hs].
  apply isEndpointParameters_assign; [apply isEndpointParameters_key | exact Ho].
Qed.

(** What the query string of an [EndpointParameters] object says of each of
    its fields. *)
Lemma wire_of_fields fields :
  isEndpointParameters fields ->
  (forall k v, JS.get k fields = Some v -> retained v = true ->
     carriesOnce (queryOf fields) (newNameOf k) (JS.toString v)) /\
  (forall k v, JS.get k fields = Some v -> retained v = false ->
     omits (queryOf fields) (newNameOf k)) /\
  (forall k, In k EndpointParameters_keys -> JS.get k fields = None ->
     omits (queryOf fields) (newNameOf k)).
Proof.
  intros Htyped. unfold queryOf.
  rewrite (renameInto_EndpointParameters _ Htyped).
  assert (Hnd : List.NoDup (keys (map renameEntry fields))).
  { rewrite keys_map_renameEntry. apply NoDup_newNames. exact Htyped. }
  assert (Hin : forall k v, JS.get k fields = Some v ->
            In (newNameOf k, v) (map renameEntry fields)).
  { intros k v Hget. apply get_In in Hget.
    apply (List.in_map renameEntry) in Hget. exact Hget. }
  split; [|split].
  - intros k v Hget Hret. apply carriesOnce_of_retained; auto.
  - intros k v Hget Hret. apply (omits_of_unretained _ _ v); auto.
  - intros k Hk Hget. unfold omits.
    rewrite URLSearchParamsFacts.parse_toString. apply getAll_absent.
    rewrite keys_map_renameEntry. intros Hin'.
    apply List.in_map_iff in Hin'. destruct Hin' as (k0 & E & Hk0).
    destruct Htyped as [_ Hall]. rewrite List.Forall_forall in Hall.
    apply newNameOf_injective in E; [|apply Hall; exact Hk0 | exact Hk].
    subst k0. apply get_None_iff in Hget. contradiction.
Qed.

End WireFacts.

(** X13. From the call to the wire, for each of the nine methods,
    [EndpointParameters] inputs and, for [getGifsByCategory], a category whose
    path is a plain reference: the one URL the call requests is the base (for
    a path with a leading slash: the origin of the base), the resource name
    and [?] (for a category: its path and [&]), and a query string in which every field handed to the invoker with a retained value
    appears exactly once, under its wire name and with its string form,
    urlencoded; a field handed on with a value that is not retained, and a
    field of the interface that is not handed on, do not appear. *)
Theorem call_to_wire :
  forall network w this call self fromOptions fromParameters,
    Ready w this (parametersOf call) self fromOptions fromParameters ->
    wellReferenced call ->
    isEndpointParameters fromOptions ->
    isEndpointParameters (suppliedFields call fromParameters) ->
    let fields := handedFields self call fromOptions fromParameters in
    let query := queryOf fields in
    requested (trace (fst (perform network this call w)))
    = (requested (trace w) ++
       [(referenceBase call ++ urlPrefix call ++ query)%string])%list /\
    (forall k v, JS.get k fields = Some v -> retained v = true ->
       carriesOnce query (newNameOf k) (JS.toString v)) /\
    (forall k v, JS.get k fields = Some v -> retained v = false ->
       omits query (newNameOf k)) /\
    (forall k, In k EndpointParameters_keys -> JS.get k fields = None ->
       omits query (newNameOf k)).
Proof.
  intros network w this call self fromOptions fromParameters HR _ Ho Hs fields query.
  split.
  - rewrite (perform_world network _ _ _ _ _ _ HR). cbn [extended trace].
    rewrite requested_app, requested_eventsOf, requestUrl_split. reflexivity.
  - apply wire_of_fields. apply isEndpointParameters_handedFields; assumption.
Qed.

(** X14. The client's configuration on the wire, for the eight methods that
    combine, [EndpointParameters] inputs and a plain reference: the call
    requests one URL, and of the query string that ends it the following
    holds.  Unless the options or the call carry a key of their own, the
    query string has the parameter [key]
    exactly once, with the key given at construction, when that key is not
    empty, and has no [key] at all when it is the empty string (the
    constructor accepts it and the query builder drops it).  An option with a
    retained value that the call does not override appears once under its
    wire name; an option that the call overrides with a value that is not
    retained ([undefined], the empty string, ...) does not appear: the
    override removes the default. *)
Theorem configuration_on_the_wire :
  forall network w this call self fromOptions fromParameters,
    Ready w this (parametersOf call) self fromOptions fromParameters ->
    wellReferenced call ->
    combines call = true ->
    isEndpointParameters fromOptions ->
    isEndpointParameters (suppliedFields call fromParameters) ->
    let supplied := suppliedFields call fromParameters in
    exists query,
      requested (trace (fst (perform network this call w)))
      = (requested (trace w) ++
         [(referenceBase call ++ urlPrefix call ++ query)%string])%list /\
      (JS.get "key" fromOptions = None -> JS.get "key" supplied = None ->
       (key self <> "" -> carriesOnce query "key" (key self)) /\
       (key self = "" -> omits query "key")) /\
      (forall k v,
         JS.get k fromOptions = Some v -> JS.get k supplied = None ->
         retained v = true ->
         carriesOnce query (newNameOf k) (JS.toString v)) /\
      (forall k v v',
         JS.get k fromOptions = Some v -> JS.get k supplied = Some v' ->
         retained v' = false ->
         omits query (newNameOf k)).
Proof.
  intros network w this call self fromOptions fromParameters HR _ Hc Ho Hs supplied.
  exists (queryOf (handedFields self call fromOptions fromParameters)).
  split.
  { rewrite (perform_world network _ _ _ _ _ _ HR). cbn [extended trace].
    rewrite requested_app, requested_eventsOf, requestUrl_split. reflexivity. }
  pose proof (isEndpointParameters_handedFields self call _ _ Ho Hs) as Htyped.
  destruct (wire_of_fields _ Htyped) as (Hcarried & Hdropped & _).
  assert (Hget : forall k,
            JS.get k (handedFields self call fromOptions fromParameters)
            = layered k [keyLayer self; fromOptions; supplied]).
  { intros k. unfold handedFields. rewrite Hc.
    apply get_combinedFields; [apply Ho | apply Hs]. }
  unfold layered, keyLayer in Hget. cbn [fold_left] in Hget.
  split; [|split].
  - intros Hko Hks.
    assert (Hkey : JS.get "key" (handedFields self call fromOptions fromParameters)
                   = Some (VString (key self))).
    { rewrite Hget. fold supplied. rewrite Hko, Hks. reflexivity. }
    split.
    + intros Hne. apply (Hcarried "key" (VString (key self)) Hkey).
      unfold retained. cbn [ToBoolean Array_isArray andb negb].
      rewrite (eqb_false_of_ne _ _ Hne). reflexivity.
    + intros He. apply (Hdropped "key" (VString (key self)) Hkey).
      rewrite He. reflexivity.
  - intros k v Hko Hks Hret. apply Hcarried; [|exact Hret].
    rewrite Hget. fold supplied. rewrite Hko, Hks. reflexivity.
  - intros k v v' Hko Hks Hret. apply (Hdropped k v'); [|exact Hret].
    rewrite Hget. fold supplied. rewrite Hks. reflexivity.
Qed.

(** ** The leading argument *)

Lemma suppliedFields_leading call fromParameters k v :
  leadingOf call = Some (k, v) ->
  suppliedFields call fromParameters = assign [(k, v)] fromParameters.
Proof. destruct call; intros E; inversion E; reflexivity. Qed.

(** X15. The leading argument of a method ([searchTerm], [ids] or [id]) is
    written first and the fields of the parameter object after it, so a field
    of the same name in the parameter object replaces the argument: the
    invoker is handed the parameter object's value when it has that field,
    and the argument otherwise. *)
Theorem leading_argument_can_be_overridden :
  forall network w this call self fromOptions fromParameters k v,
    Ready w this (parametersOf call) self fromOptions fromParameters ->
    List.NoDup (keys fromOptions) ->
    List.NoDup (keys fromParameters) ->
    leadingOf call = Some (k, v) ->
    let fields := handedFields self call fromOptions fromParameters in
    (exists resourceName url,
       trace (fst (perform network this call w))
       = (trace w ++ [Invoked resourceName fields; Get url])%list) /\
    JS.get k fields
    = match JS.get k fromParameters with
      | Some v' => Some v'
      | None => Some v
      end.
Proof.
  intros network w this call self fromOptions fromParameters k v HR Ho Hp Hlead
         fields.
  split.
  - rewrite (perform_trace network _ _ _ _ _ _ HR). fold fields.
    destruct call; try discriminate; eexists _, _; reflexivity.
  - assert (Hsupplied : JS.get k (suppliedFields call fromParameters)
                        = match JS.get k fromParameters with
                          | Some v' => Some v'
                          | None => Some v
                          end).
    { rewrite (suppliedFields_leading _ _ _ _ Hlead), get_assign by exact Hp.
      destruct (JS.get k fromParameters); [reflexivity|].
      cbn [JS.get]. rewrite eqb_refl_true. reflexivity. }
    unfold fields, handedFields. destruct (combines call); [|exact Hsupplied].
    rewrite get_combinedFields.
    + unfold layered. cbn [fold_left]. rewrite Hsupplied.
      destruct (JS.get k fromParameters); reflexivity.
    + exact Ho.
    + rewrite (suppliedFields_leading _ _ _ _ Hlead).
      apply NoDup_keys_assign. distinct_names.
Qed.

(** ** The further properties at concrete inputs *)

Lemma failure_status_throws_witness :
  let call := RegisterGifShareEvent "16989471141791455574" (Some 2%nat) in
  (forall result,
     snd (perform (respond 400 badRequest) 0%nat call exampleWorld) <> Ok result) /\
  snd (perform (respond 400 badRequest) 0%nat call exampleWorld)
  = Throw (GoogleApiError
             (Some (JObject [("code", JString "BAD_REQUEST");
                             ("message", JString "x")]))) /\
  snd (perform (respond 500 JNull) 0%nat call exampleWorld) = Throw TypeError.
Proof.
  intros call.
  pose proof (failure_status_throws (respond 400 badRequest) exampleWorld 0%nat
                call exampleClient [("clientKey", VString "my_test_app")]
                [("searchTerm", VString "excited")]
                {| status := 400; json := Ok badRequest |} badRequest
                ltac:(ready) eq_refl eq_refl eq_refl) as (Hnever & Herror & _).
  pose proof (failure_status_throws (respond 500 JNull) exampleWorld 0%nat
                call exampleClient [("clientKey", VString "my_test_app")]
                [("searchTerm", VString "excited")]
                {| status := 500; json := Ok JNull |} JNull
                ltac:(ready) eq_refl eq_refl eq_refl) as (_ & _ & Hnull).
  split; [exact Hnever|]. split; [|exact (Hnull eq_refl)].
  exact (Herror _ _ eq_refl eq_refl).
Defined.

Lemma transport_failures_pass_through_witness :
  let call := GifsBySearch "excited" (Some 1%nat) in
  snd (perform unreachable 0%nat call exampleWorld)
  = Throw (NetworkError "unreachable") /\
  snd (perform (garbled 404) 0%nat call exampleWorld) = Throw SyntaxError.
Proof.
  intros call. split.
  - exact (transport_failures_pass_through unreachable exampleWorld 0%nat call
             exampleClient [("clientKey", VString "my_test_app")]
             [("limit", VNumber eight)] (NetworkError "unreachable")
             ltac:(ready) (or_introl eq_refl)).
  - exact (transport_failures_pass_through (garbled 404) exampleWorld 0%nat call
             exampleClient [("clientKey", VString "my_test_app")]
             [("limit", VNumber eight)] SyntaxError
             ltac:(ready) (or_intror (ex_intro _ 404 eq_refl))).
Defined.

Lemma success_returns_body_unvalidated_witness :
  snd (perform (respond 200 JNull) 0%nat (GifCategories None) exampleWorld)
  = Ok (Some JNull).
Proof.
  exact (success_returns_body_unvalidated (respond 200 JNull) exampleWorld 0%nat
           (GifCategories None) exampleClient
           [("clientKey", VString "my_test_app")] []
           {| status := 200; json := Ok JNull |} JNull
           ltac:(ready) eq_refl eq_refl eq_refl eq_refl).
Defined.

Lemma registerGifShareEvent_odd_bodies_witness :
  snd (registerGifShareEvent (respond 200 emptyResults) 0%nat "1" None exampleWorld)
  = Ok None /\
  snd (registerGifShareEvent (respond 200 JNull) 0%nat "1" None exampleWorld)
  = Throw TypeError /\
  snd (registerGifShareEvent (respond 200 (JString "ok")) 0%nat "1" None exampleWorld)
  = Ok None.
Proof.
  split; [|split].
  - exact (proj1 (proj2 (registerGifShareEvent_odd_bodies (respond 200 emptyResults)
                           exampleWorld 0%nat "1" None exampleClient
                           [("clientKey", VString "my_test_app")] []
                           {| status := 200; json := Ok emptyResults |} emptyResults
                           ltac:(ready) eq_refl eq_refl eq_refl))
             _ eq_refl eq_refl).
  - exact (proj1 (registerGifShareEvent_odd_bodies (respond 200 JNull)
                    exampleWorld 0%nat "1" None exampleClient
                    [("clientKey", VString "my_test_app")] []
                    {| status := 200; json := Ok JNull |} JNull
                    ltac:(ready) eq_refl eq_refl eq_refl)
             eq_refl).
  - apply (proj2 (proj2 (registerGifShareEvent_odd_bodies (respond 200 (JString "ok"))
                           exampleWorld 0%nat "1" None exampleClient
                           [("clientKey", VString "my_test_app")] []
                           {| status := 200; json := Ok (JString "ok") |} (JString "ok")
                           ltac:(ready) eq_refl eq_refl eq_refl)));
      [intros members | ]; discriminate.
Defined.

Lemma one_request_per_call_witness :
  let call := GifsByCategory excitedFromRoot (Some 1%nat) in
  let reference :=
    "/v2/search?q=excited&locale=en&component=categories&contentfilter=high&key=KEY&client_key=my_test_app&limit=8" in
  requested (trace (fst (perform unreachable 0%nat call exampleWorld)))
  = ["https://tenor.googleapis.com" ++ reference] /\
  plainReference reference = true.
Proof.
  intros call reference.
  destruct (one_request_per_call unreachable exampleWorld 0%nat call exampleClient
              [("clientKey", VString "my_test_app")] [("limit", VNumber eight)]
              ltac:(ready) eq_refl exampleOptions_typed exampleLimit_typed)
    as (Hrequested & _ & Hplain).
  split; [exact Hrequested | exact Hplain].
Defined.

Lemma renameParameters_idempotent_witness :
  exists once twice o1 o2,
    snd (renameTwice 0%nat oddWorld) = Ok (once, twice) /\
    once <> twice /\
    heap (fst (renameTwice 0%nat oddWorld)) !! once = Some o1 /\
    heap (fst (renameTwice 0%nat oddWorld)) !! twice = Some o2 /\
    props o2 = props o1.
Proof. exact (renameParameters_idempotent oddWorld 0%nat _ eq_refl). Defined.

Lemma renameParameters_any_object_witness :
  exists renamed o',
    snd (renameParameters 0%nat oddWorld) = Ok renamed /\
    heap (fst (renameParameters 0%nat oddWorld)) !! renamed = Some o' /\
    List.NoDup (keys (props o')) /\
    (length (props o') <= 3)%nat /\
    JS.get "searchTerm" (props o') = None /\
    JS.get "q" (props o') = Some (VString "b") /\
    JS.get "limit" (props o') = Some (VNumber eight).
Proof.
  destruct (renameParameters_any_object oddWorld 0%nat _ eq_refl
              ltac:(simpl; intuition discriminate))
    as (renamed & o' & Hrun & Hheap & Hnd & Hlen & Habsent & _ & _ & _ & Hlast).
  exists renamed, o'. repeat split; try assumption.
  - exact (Habsent "searchTerm" "q" eq_refl).
  - apply (Hlast [("q", VString "a"); ("limit", VNumber eight)] "searchTerm"
                 (VString "b") []); [reflexivity | intros k2 []].
  - apply (Hlast [("q", VString "a")] "limit" (VNumber eight)
                 [("searchTerm", VString "b")]); [reflexivity|].
    intros k2 [<-|[]]. discriminate.
Defined.

Lemma renameParameters_keeps_order_witness :
  exists renamed o',
    snd (renameParameters 4%nat exampleWorld) = Ok renamed /\
    heap (fst (renameParameters 4%nat exampleWorld)) !! renamed = Some o' /\
    keys (props o') = ["q"; "limit"; "media_filter"] /\
    map snd (props o') = [VString "excited"; VNumber eight; VArray ["gif"]].
Proof.
  exact (renameParameters_keeps_order exampleWorld 4%nat _ eq_refl
           exampleParameters_typed).
Defined.

Lemma createUrlParameters_in_order_witness :
  (exists urlParameters,
     createUrlParameters 0%nat mixedWorld = (mixedWorld, Ok urlParameters) /\
     urlParameters
     = [("q", "so excited"); ("limit", "50"); ("random", "true"); ("pos", "1e+21");
        ("ar_range", "0.5"); ("media_filter", "gif,mp4"); ("key", "a&b=c")] /\
     (length urlParameters <= 13)%nat /\
     URLSearchParams.split "&" (URLSearchParams.toString urlParameters)
     = ["q=so+excited"; "limit=50"; "random=true"; "pos=1e%2B21"; "ar_range=0.5";
        "media_filter=gif%2Cmp4"; "key=a%26b%3Dc"]) /\
  (exists urlParameters,
     createUrlParameters 1%nat oddWorld = (oddWorld, Ok urlParameters) /\
     URLSearchParams.toString urlParameters = "").
Proof.
  split.
  - destruct (createUrlParameters_in_order mixedWorld 0%nat _ eq_refl)
      as (urlParameters & Hrun & Hlist & Hlen & _ & Hpieces).
    exists urlParameters. split; [exact Hrun|]. split; [exact Hlist|].
    split; [exact Hlen|]. apply Hpieces. discriminate.
  - destruct (createUrlParameters_in_order oddWorld 1%nat _ eq_refl)
      as (urlParameters & Hrun & _ & _ & Hempty & _).
    exists urlParameters. split; [exact Hrun|]. apply Hempty.
    intros k v Hin. simpl in Hin.
    repeat (destruct Hin as [E|Hin]; [inversion E; reflexivity|]). destruct Hin.
Defined.

Lemma fetchTenorApiEndpoint_nothing_to_send_witness :
  requested (trace (fst (fetchTenorApiEndpoint unreachable featured 1%nat oddWorld)))
  = [ "https://tenor.googleapis.com/v2/categories?key=KEY";
      "https://tenor.googleapis.com/v2/featured?" ].
Proof.
  apply (fetchTenorApiEndpoint_nothing_to_send unreachable featured 1%nat _ oddWorld
           eq_refl).
  intros k v Hin. simpl in Hin.
  repeat (destruct Hin as [E|Hin]; [inversion E; reflexivity|]). destruct Hin.
Defined.


Lemma call_to_wire_witness :
  let call := GifsBySearch "excited" (Some 1%nat) in
  let query := "key=KEY&client_key=my_test_app&q=excited&limit=8" in
  (requested (trace (fst (perform unreachable 0%nat call exampleWorld)))
   = [ "https://tenor.googleapis.com/v2/search?" ++ query ] /\
   carriesOnce query "q" "excited" /\
   carriesOnce query "limit" "8" /\
   omits query "pos") /\
  requested (trace (fst (perform unreachable 0%nat
                           (GifsByCategory excitedFromRoot (Some 1%nat))
                           exampleWorld)))
  = [ "https://tenor.googleapis.com/v2/search?q=excited&locale=en&component=categories&contentfilter=high&key=KEY&client_key=my_test_app&limit=8" ].
Proof.
  intros call query. split.
  - destruct (call_to_wire unreachable exampleWorld 0%nat call exampleClient
                [("clientKey", VString "my_test_app")] [("limit", VNumber eight)]
                ltac:(ready) I exampleOptions_typed exampleSupplied_typed)
      as (Hurl & Hcarried & _ & Habsent).
    split; [exact Hurl|]. split; [|split].
    + exact (Hcarried "searchTerm" (VString "excited") eq_refl eq_refl).
    + exact (Hcarried "limit" (VNumber eight) eq_refl eq_refl).
    + apply (Habsent "positionId"); [|reflexivity].
      cbn. repeat (first [left; reflexivity | right]).
  - exact (proj1 (call_to_wire unreachable exampleWorld 0%nat
                    (GifsByCategory excitedFromRoot (Some 1%nat)) exampleClient
                    [("clientKey", VString "my_test_app")] [("limit", VNumber eight)]
                    ltac:(ready) eq_refl exampleOptions_typed exampleLimit_typed)).
Defined.

Lemma configuration_on_the_wire_witness :
  exists query,
    requested (trace (fst (perform unreachable 0%nat
                             (GifsBySearch "excited" (Some 1%nat)) exampleWorld)))
    = [ "https://tenor.googleapis.com/v2/search?" ++ query ] /\
    carriesOnce query "key" "KEY" /\
    carriesOnce query "client_key" "my_test_app".
Proof.
  destruct (configuration_on_the_wire unreachable exampleWorld 0%nat
              (GifsBySearch "excited" (Some 1%nat)) exampleClient
              [("clientKey", VString "my_test_app")] [("limit", VNumber eight)]
              ltac:(ready) I eq_refl exampleOptions_typed exampleSupplied_typed)
    as (query & Hurl & Hkey & Hoption & _).
  exists query. split; [exact Hurl|]. split.
  - apply (proj1 (Hkey eq_refl eq_refl)). discriminate.
  - exact (Hoption "clientKey" (VString "my_test_app") eq_refl eq_refl eq_refl).
Defined.

Lemma leading_argument_can_be_overridden_witness :
  let call := GifsBySearch "calm" (Some 2%nat) in
  let fields :=
    handedFields exampleClient call [("clientKey", VString "my_test_app")]
                 [("searchTerm", VString "excited")] in
  (exists resourceName url,
     trace (fst (perform unreachable 0%nat call exampleWorld))
     = [Invoked resourceName fields; Get url]) /\
  JS.get "searchTerm" fields = Some (VString "excited").
Proof.
  intros call fields.
  apply (leading_argument_can_be_overridden unreachable exampleWorld 0%nat call
           exampleClient [("clientKey", VString "my_test_app")]
           [("searchTerm", VString "excited")] "searchTerm" (VString "calm")
           ltac:(ready) ltac:(distinct_names) ltac:(distinct_names) eq_refl).
Defined.
